(** * The tasker repository (packages/features/tasker/repository.ts)

    A shallow embedding of the [Task] class: the three [where] filters, the
    Prisma calls they are passed to, and the static methods built on them.
    The database is a list of rows in insertion order; every method takes the
    environment of the call (the clock reading of [new Date()], a possible
    failure of the database call, the uuid the database draws on insert) and
    the store, and returns either a value with the new store or the error it
    throws. *)

From Stdlib Require Import ZArith List String Bool Lia.
From Stdlib Require Import Sorting.Sorted Sorting.Permutation.
Import ListNotations.
Local Open Scope string_scope.
Local Open Scope list_scope.
Local Open Scope Z_scope.

(** ** Errors and results *)

(** The errors a Prisma call rejects with.  [PrismaClientKnownRequestError]
    carries the error code the [catch] of [cancelWithReference] looks at. *)
Inductive PrismaError : Type :=
| PrismaClientKnownRequestError (code : string)
| PrismaClientUnknownRequestError (message : string)
| PrismaClientValidationError (message : string).

(** A promise that has settled: resolved with a value or rejected. *)
Inductive Result (A : Type) : Type :=
| Ok (a : A)
| Throw (e : PrismaError).
Arguments Ok {A} a.
Arguments Throw {A} e.

Definition bind {A B : Type} (c : Result A) (k : A -> Result B) : Result B :=
  match c with
  | Ok a => k a
  | Throw e => Throw e
  end.

Notation "x <- c ;; k" := (bind c (fun x => k))
  (at level 61, c at next level, right associativity).

(** [try c catch handler] *)
Definition try_catch {A : Type} (c : Result A) (handler : PrismaError -> Result A)
  : Result A :=
  match c with
  | Ok a => Ok a
  | Throw e => handler e
  end.

(** ** JavaScript numbers and dates, on integers *)

(** An integer-valued double: integers up to 2^53 in absolute value are
    exact, larger ones are rounded to 53 significant bits, ties to even. *)
Definition round53 (x : Z) : Z :=
  let a := Z.abs x in
  if a <=? 2 ^ 53 then x
  else
    let e := Z.log2 a - 52 in
    let q := a / 2 ^ e in
    let r := a mod 2 ^ e in
    let half := 2 ^ (e - 1) in
    let q' := if r <? half then q
              else if half <? r then q + 1
              else if Z.even q then q else q + 1 in
    Z.sgn x * (q' * 2 ^ e).

Definition js_mul (x y : Z) : Z := round53 (x * y).
Definition js_add (x y : Z) : Z := round53 (x + y).

(** A [Date] object: a time value in milliseconds since the epoch, or the
    invalid date (time value NaN). *)
Inductive JsDate : Type :=
| ValidDate (ms : Z)
| InvalidDate.

Definition max_time : Z := 8640000000000000.

Definition valid_time (ms : Z) : Prop := - max_time <= ms <= max_time.

(** [new Date(ms)]: the time value is clipped to the range of valid dates. *)
Definition new_Date (ms : Z) : JsDate :=
  if (- max_time <=? ms) && (ms <=? max_time) then ValidDate ms else InvalidDate.

(** The dates a [DateTime] column takes: the years 1 to 9999, that is from
    0001-01-01T00:00:00.000Z to 9999-12-31T23:59:59.999Z. *)
Definition min_DateTime : Z := -62135596800000.
Definition max_DateTime : Z := 253402300799999.

Definition DateTime_ok (ms : Z) : Prop := min_DateTime <= ms <= max_DateTime.

Definition in_DateTime_range (ms : Z) : bool :=
  (min_DateTime <=? ms) && (ms <=? max_DateTime).

(** An optional parameter of type [number | null].  A number is a whole
    number, NaN or an infinity; fractions of a unit are left out. *)
Inductive OptionalNumber : Type :=
| Undefined
| Null
| Num (n : Z)
| NaN
| Infinity.

(** Truthiness of [minRetryIntervalMins]: [undefined], [null], [0] and NaN
    are falsy, every other number is truthy. *)
Definition truthy (x : OptionalNumber) : bool :=
  match x with
  | Undefined => false
  | Null => false
  | Num n => negb (n =? 0)
  | NaN => false
  | Infinity => true
  end.

(** ** The Task table *)

(** Modelled from the spec: the Prisma schema of the [Task] model is not part
    of the repository file; the columns are those of the data model, with
    [attempts] and [maxAttempts] of type [Int] as the field references of the
    filters say. *)
Record Task : Type := mkTask {
  id : string;
  type : string;
  payload : string;
  scheduledAt : Z;
  attempts : Z;
  maxAttempts : Z;
  lastError : option string;
  lastFailedAttemptAt : option Z;
  succeededAt : option Z;
  referenceUid : option string;
  createdAt : Z
}.

(** The rows of the table, oldest insert first. *)
Definition Store : Type := list Task.

(** Largest value of an [Int] column. *)
Definition INT_MAX : Z := 2147483647.

Definition in_Int_range (n : Z) : bool := (- INT_MAX - 1 <=? n) && (n <=? INT_MAX).

(** ** Prisma filters ([Prisma.TaskWhereInput]) *)

Inductive IntColumn : Type := col_attempts | col_maxAttempts.

Definition int_column (c : IntColumn) (t : Task) : Z :=
  match c with
  | col_attempts => attempts t
  | col_maxAttempts => maxAttempts t
  end.

(** The right-hand side of an integer filter: a literal, or
    [{ _ref: column, _container: "Task" }]. *)
Inductive IntOperand : Type :=
| IntLit (n : Z)
| FieldRef (column : IntColumn).

Inductive IntFilter : Type :=
| int_equals (o : IntOperand)
| int_lt (o : IntOperand).

Inductive DateTimeFilter : Type :=
| date_lt (d : Z).

(** [succeededAt: null] and [succeededAt: { not: null }]. *)
Inductive DateTimeNullableFilter : Type :=
| is_null
| not_null.

Record TaskWhereInput : Type := mkWhere {
  where_succeededAt : option DateTimeNullableFilter;
  where_scheduledAt : option DateTimeFilter;
  where_attempts : option IntFilter
}.

Definition int_operand (o : IntOperand) (t : Task) : Z :=
  match o with
  | IntLit n => n
  | FieldRef c => int_column c t
  end.

Definition eval_int_filter (f : IntFilter) (v : Z) (t : Task) : bool :=
  match f with
  | int_equals o => v =? int_operand o t
  | int_lt o => v <? int_operand o t
  end.

Definition eval_date_filter (f : DateTimeFilter) (v : Z) : bool :=
  match f with
  | date_lt d => v <? d
  end.

Definition eval_nullable_filter (f : DateTimeNullableFilter) (v : option Z) : bool :=
  match f, v with
  | is_null, None => true
  | is_null, Some _ => false
  | not_null, None => false
  | not_null, Some _ => true
  end.

Definition on_field {F : Type} (f : option F) (test : F -> bool) : bool :=
  match f with
  | None => true
  | Some flt => test flt
  end.

(** A row matches when it passes every filter that is present. *)
Definition matches (w : TaskWhereInput) (t : Task) : bool :=
  on_field (where_succeededAt w) (fun f => eval_nullable_filter f (succeededAt t))
  && on_field (where_scheduledAt w) (fun f => eval_date_filter f (scheduledAt t))
  && on_field (where_attempts w) (fun f => eval_int_filter f (attempts t) t).

Definition whereSucceeded : TaskWhereInput :=
  {| where_succeededAt := Some not_null;
     where_scheduledAt := None;
     where_attempts := None |}.

Definition whereMaxAttemptsReached : TaskWhereInput :=
  {| where_succeededAt := None;
     where_scheduledAt := None;
     where_attempts := Some (int_equals (FieldRef col_maxAttempts)) |}.

(** The argument is the value of [new Date()] when the filter is built. *)
Definition makeWhereUpcomingTasks (now : Z) : TaskWhereInput :=
  {| where_succeededAt := Some is_null;
     where_scheduledAt := Some (date_lt now);
     where_attempts := Some (int_lt (FieldRef col_maxAttempts)) |}.

(** ** The database client ([db.task]) *)

(** What the outside world contributes to one call: the reading of the clock,
    the error the database call fails with for reasons of its own (connection
    lost, timeout), if any, and the uuid drawn for a row that is inserted. *)
Record Env : Type := mkEnv {
  now : Z;
  fault : option PrismaError;
  uuid : string
}.

Definition connect (e : Env) : Result unit :=
  match fault e with
  | Some err => Throw err
  | None => Ok tt
  end.

Definition record_not_found : PrismaError := PrismaClientKnownRequestError "P2025".
Definition unique_constraint_failed : PrismaError := PrismaClientKnownRequestError "P2002".

(** A value that the type of its column cannot hold. *)
Definition value_out_of_range : PrismaError := PrismaClientKnownRequestError "P2020".

(** [orderBy: { scheduledAt: "asc" }], as a stable insertion sort: rows with
    equal [scheduledAt] keep their insertion order (the database promises no
    order among them). *)
Fixpoint insert_by_scheduledAt (t : Task) (l : list Task) : list Task :=
  match l with
  | [] => [t]
  | x :: l' =>
      if scheduledAt t <=? scheduledAt x then t :: l
      else x :: insert_by_scheduledAt t l'
  end.

Definition orderBy_scheduledAt_asc (l : list Task) : list Task :=
  fold_right insert_by_scheduledAt [] l.

(** The order of a batch: no later task comes first. *)
Definition due_before (a b : Task) : Prop := scheduledAt a <= scheduledAt b.

Inductive TaskOrderBy : Type := scheduledAt_asc.

Record FindManyArgs : Type := mkFindMany {
  find_where : option TaskWhereInput;
  find_orderBy : option TaskOrderBy;
  find_take : option nat
}.

Definition select_where (w : option TaskWhereInput) (s : Store) : list Task :=
  match w with
  | None => s
  | Some w => filter (matches w) s
  end.

Definition db_task_findMany (e : Env) (args : FindManyArgs) (s : Store)
  : Result (list Task) :=
  _ <- connect e ;;
  let rows := select_where (find_where args) s in
  let rows := match find_orderBy args with
              | Some scheduledAt_asc => orderBy_scheduledAt_asc rows
              | None => rows
              end in
  Ok (match find_take args with
      | Some n => firstn n rows
      | None => rows
      end).

Definition db_task_count (e : Env) (w : option TaskWhereInput) (s : Store)
  : Result Z :=
  _ <- connect e ;;
  Ok (Z.of_nat (List.length (select_where w s))).

(** [where: { id }] and [where: { referenceUid_type: { referenceUid, type } }]. *)
Inductive TaskWhereUniqueInput : Type :=
| by_id (taskId : string)
| by_referenceUid_type (ref : string) (ty : string).

Definition unique_match (w : TaskWhereUniqueInput) (t : Task) : bool :=
  match w with
  | by_id taskId => String.eqb (id t) taskId
  | by_referenceUid_type ref ty =>
      match referenceUid t with
      | Some r => String.eqb r ref && String.eqb (type t) ty
      | None => false
      end
  end.

Definition findUnique (w : TaskWhereUniqueInput) (s : Store) : option Task :=
  find (unique_match w) s.

Inductive IntFieldUpdate : Type := increment (n : Z).

(** The [data] of an update; a field that is [undefined] is [None] and is
    left as it is. *)
Record TaskUpdateInput : Type := mkUpdate {
  data_attempts : option IntFieldUpdate;
  data_lastError : option string;
  data_lastFailedAttemptAt : option JsDate;
  data_scheduledAt : option JsDate;
  data_succeededAt : option JsDate
}.

Definition date_ok (d : option JsDate) : bool :=
  match d with
  | Some InvalidDate => false
  | _ => true
  end.

Definition valid_data (data : TaskUpdateInput) : bool :=
  date_ok (data_lastFailedAttemptAt data)
  && date_ok (data_scheduledAt data)
  && date_ok (data_succeededAt data).

(** A date that is passed is one the column takes. *)
Definition accepted_date (d : option JsDate) : bool :=
  match d with
  | Some (ValidDate ms) => in_DateTime_range ms
  | _ => true
  end.

Definition accepted_data (data : TaskUpdateInput) : bool :=
  accepted_date (data_lastFailedAttemptAt data)
  && accepted_date (data_scheduledAt data)
  && accepted_date (data_succeededAt data).

Definition set_int (u : option IntFieldUpdate) (old : Z) : Z :=
  match u with
  | Some (increment n) => old + n
  | None => old
  end.

Definition set_string (u : option string) (old : option string) : option string :=
  match u with
  | Some v => Some v
  | None => old
  end.

Definition set_date (u : option JsDate) (old : Z) : Z :=
  match u with
  | Some (ValidDate ms) => ms
  | _ => old
  end.

Definition set_nullable_date (u : option JsDate) (old : option Z) : option Z :=
  match u with
  | Some (ValidDate ms) => Some ms
  | _ => old
  end.

Definition apply_update (data : TaskUpdateInput) (t : Task) : Task :=
  {| id := id t;
     type := type t;
     payload := payload t;
     scheduledAt := set_date (data_scheduledAt data) (scheduledAt t);
     attempts := set_int (data_attempts data) (attempts t);
     maxAttempts := maxAttempts t;
     lastError := set_string (data_lastError data) (lastError t);
     lastFailedAttemptAt :=
       set_nullable_date (data_lastFailedAttemptAt data) (lastFailedAttemptAt t);
     succeededAt := set_nullable_date (data_succeededAt data) (succeededAt t);
     referenceUid := referenceUid t;
     createdAt := createdAt t |}.

(** The first row selected by [w] is replaced by [t']. *)
Fixpoint replace_row (w : TaskWhereUniqueInput) (t' : Task) (s : Store) : Store :=
  match s with
  | [] => []
  | x :: s' => if unique_match w x then t' :: s' else x :: replace_row w t' s'
  end.

(** The first row selected by [w] is removed. *)
Fixpoint remove_row (w : TaskWhereUniqueInput) (s : Store) : Store :=
  match s with
  | [] => []
  | x :: s' => if unique_match w x then s' else x :: remove_row w s'
  end.

(** [db.task.update]: the client rejects an invalid [Date], and a date
    outside the years 1 to 9999 is refused when the arguments are converted,
    before any row is looked up; the database rejects with P2025 when no row
    is selected, and with P2020 when the incremented counter leaves the
    [Int] range; a rejected call leaves the table as it was.  Which error a
    refused date is reported with plays no part below: the properties only
    use that the call throws. *)
Definition db_task_update (e : Env) (w : TaskWhereUniqueInput)
  (data : TaskUpdateInput) (s : Store) : Result (Task * Store) :=
  if negb (valid_data data)
  then Throw (PrismaClientValidationError "Provided Date object is invalid")
  else if negb (accepted_data data)
  then Throw value_out_of_range
  else
    _ <- connect e ;;
    match findUnique w s with
    | None => Throw record_not_found
    | Some t =>
        let t' := apply_update data t in
        if INT_MAX <? attempts t'
        then Throw value_out_of_range
        else Ok (t', replace_row w t' s)
    end.

(** [db.task.delete]: rejects with P2025 when no row is selected. *)
Definition db_task_delete (e : Env) (w : TaskWhereUniqueInput) (s : Store)
  : Result (Task * Store) :=
  _ <- connect e ;;
  match findUnique w s with
  | None => Throw record_not_found
  | Some t => Ok (t, remove_row w s)
  end.

Record TaskCreateInput : Type := mkCreate {
  create_payload : string;
  create_type : string;
  create_scheduledAt : option Z;
  create_maxAttempts : option Z;
  create_referenceUid : option string
}.

(** The values given fit their columns: [scheduledAt] is a date of the
    years 1 to 9999 and [maxAttempts] an [Int]. *)
Definition accepted_create (data : TaskCreateInput) : bool :=
  match create_scheduledAt data with
  | Some d => in_DateTime_range d
  | None => true
  end
  && match create_maxAttempts data with
     | Some m => in_Int_range m
     | None => true
     end.

Definition violates_unique (t : Task) (s : Store) : bool :=
  existsb (unique_match (by_id (id t))) s
  || match referenceUid t with
     | Some ref => existsb (unique_match (by_referenceUid_type ref (type t))) s
     | None => false
     end.

Section Create.

(** The column default of [maxAttempts], declared in the schema. *)
Variable default_maxAttempts : Z.

Definition new_row (e : Env) (data : TaskCreateInput) : Task :=
  {| id := uuid e;
     type := create_type data;
     payload := create_payload data;
     scheduledAt := match create_scheduledAt data with
                    | Some d => d
                    | None => now e
                    end;
     attempts := 0;
     maxAttempts := match create_maxAttempts data with
                    | Some m => m
                    | None => default_maxAttempts
                    end;
     lastError := None;
     lastFailedAttemptAt := None;
     succeededAt := None;
     referenceUid := create_referenceUid data;
     createdAt := now e |}.

(** [db.task.create]: rejects with P2020 a value that its column cannot
    hold, before any key is compared, and with P2002 when the primary key
    or the unique pair (referenceUid, type) is already taken. *)
Definition db_task_create (e : Env) (data : TaskCreateInput) (s : Store)
  : Result (Task * Store) :=
  _ <- connect e ;;
  if negb (accepted_create data) then Throw value_out_of_range
  else
    let t := new_row e data in
    if violates_unique t s then Throw unique_constraint_failed
    else Ok (t, s ++ [t]).

End Create.

(** ** The repository: the static methods of [Task] *)

Record CreateOptions : Type := mkOptions {
  opt_scheduledAt : option Z;
  opt_maxAttempts : option Z;
  opt_referenceUid : option string
}.

Definition create (default_maxAttempts : Z) (e : Env) (ty payload : string)
  (options : CreateOptions) (s : Store) : Result (string * Store) :=
  r <- db_task_create default_maxAttempts e
         {| create_payload := payload;
            create_type := ty;
            create_scheduledAt := opt_scheduledAt options;
            create_maxAttempts := opt_maxAttempts options;
            create_referenceUid := opt_referenceUid options |} s ;;
  Ok (id (fst r), snd r).

Definition getNextBatch (e : Env) (s : Store) : Result (list Task) :=
  db_task_findMany e
    {| find_where := Some (makeWhereUpcomingTasks (now e));
       find_orderBy := Some scheduledAt_asc;
       find_take := Some 1000%nat |} s.

Definition getFailed (e : Env) (s : Store) : Result (list Task) :=
  db_task_findMany e
    {| find_where := Some whereMaxAttemptsReached;
       find_orderBy := None;
       find_take := None |} s.

Definition getSucceeded (e : Env) (s : Store) : Result (list Task) :=
  db_task_findMany e
    {| find_where := Some whereSucceeded;
       find_orderBy := None;
       find_take := None |} s.

Definition count (e : Env) (s : Store) : Result Z :=
  db_task_count e None s.

Definition countUpcoming (e : Env) (s : Store) : Result Z :=
  db_task_count e (Some (makeWhereUpcomingTasks (now e))) s.

Definition countFailed (e : Env) (s : Store) : Result Z :=
  db_task_count e (Some whereMaxAttemptsReached) s.

Definition countSucceeded (e : Env) (s : Store) : Result Z :=
  db_task_count e (Some whereSucceeded) s.

(** With an infinite interval the time value is infinite, and the [Date]
    built from it is invalid. *)
Definition retry (e : Env) (taskId : string) (lastError : option string)
  (minRetryIntervalMins : OptionalNumber) (s : Store) : Result (Task * Store) :=
  let failedAttemptTime := now e in
  let updatedScheduledAt :=
    if truthy minRetryIntervalMins
    then match minRetryIntervalMins with
         | Num mins =>
             Some (new_Date (js_add failedAttemptTime (js_mul (js_mul 1000 60) mins)))
         | _ => Some InvalidDate
         end
    else None in
  db_task_update e (by_id taskId)
    {| data_attempts := Some (increment 1);
       data_lastError := lastError;
       data_lastFailedAttemptAt := Some (ValidDate failedAttemptTime);
       data_scheduledAt := updatedScheduledAt;
       data_succeededAt := None |} s.

Definition succeed (e : Env) (taskId : string) (s : Store) : Result (Task * Store) :=
  db_task_update e (by_id taskId)
    {| data_attempts := Some (increment 1);
       data_lastError := None;
       data_lastFailedAttemptAt := None;
       data_scheduledAt := None;
       data_succeededAt := Some (ValidDate (now e)) |} s.

Definition cancel (e : Env) (taskId : string) (s : Store) : Result (Task * Store) :=
  db_task_delete e (by_id taskId) s.

(** Resolves with [Some id] for [{ id }] and with [None] for [null]. *)
Definition cancelWithReference (e : Env) (referenceUid ty : string) (s : Store)
  : Result (option string * Store) :=
  try_catch
    (r <- db_task_delete e (by_referenceUid_type referenceUid ty) s ;;
     Ok (Some (id (fst r)), snd r))
    (fun error =>
       match error with
       | PrismaClientKnownRequestError code =>
           if String.eqb code "P2025" then Ok (None, s) else Throw error
       | _ => Throw error
       end).

(** The body of [cleanup] is commented out: the method resolves without
    calling the database. *)
Definition cleanup (e : Env) (s : Store) : Result (unit * Store) :=
  Ok (tt, s).

Definition raw_query_failed : PrismaError := PrismaClientKnownRequestError "P2010".

Definition is_null_date (d : option Z) : bool :=
  match d with
  | None => true
  | Some _ => false
  end.

Section ScanWorkflowBody.

(** The three functions below are evaluated outside the repository file:
    by the database, by [JSON.parse] with the schema of
    ./tasks/scanWorkflowBody, and by the [Date] constructor. *)

(** The value of [(payload::jsonb ->> 'workflowStepId')::int] on a payload:
    [None] when one of the two casts raises, [Some None] when the value is
    NULL, [Some (Some n)] when it is the integer [n]. *)
Variable jsonb_workflowStepId : string -> option (option Z).

(** [scanWorkflowBodySchema.parse(JSON.parse(payload)).createdAt]: [None]
    when [JSON.parse] or the schema throws, [Some None] when the field is
    undefined. *)
Variable scanWorkflowBody_createdAt : string -> option (option string).

(** The time value of [new Date(text)]; [None] for an invalid date. *)
Variable Date_parse : string -> option Z.

Definition same_int (v : option Z) (n : Z) : bool :=
  match v with
  | Some m => m =? n
  | None => false
  end.

(** The raw query.  The conjuncts of the WHERE clause are tested in the
    order they are written, so that a row rejected by [type] or
    [succeededAt] never reaches the casts; a cast that raises fails the
    whole statement. *)
Fixpoint select_scan_payloads (workflowStepId : Z) (s : Store)
  : Result (list string) :=
  match s with
  | [] => Ok []
  | t :: s' =>
      if String.eqb (type t) "scanWorkflowBody" && is_null_date (succeededAt t)
      then
        match jsonb_workflowStepId (payload t) with
        | None => Throw raw_query_failed
        | Some v =>
            rest <- select_scan_payloads workflowStepId s' ;;
            Ok (if same_int v workflowStepId then payload t :: rest else rest)
        end
      else select_scan_payloads workflowStepId s'
  end.

(** [new Date(a) > new Date(b)]: false as soon as one side is invalid. *)
Definition date_gt (a b : string) : bool :=
  match Date_parse a, Date_parse b with
  | Some x, Some y => y <? x
  | _, _ => false
  end.

(** The callback of [tasks.some]. *)
Definition is_newer (createdAt : string) (task_payload : string) : bool :=
  match scanWorkflowBody_createdAt task_payload with
  | None => false
  | Some None => false
  | Some (Some parsed_createdAt) =>
      if String.eqb parsed_createdAt EmptyString then false
      else date_gt parsed_createdAt createdAt
  end.

(** The statement compares with an [int]: a step id outside the [Int] range
    fails it, whatever the table holds. *)
Definition hasNewerScanTaskForStepId (e : Env) (workflowStepId : Z)
  (createdAt : string) (s : Store) : Result bool :=
  _ <- connect e ;;
  tasks <- (if in_Int_range workflowStepId
            then select_scan_payloads workflowStepId s
            else Throw raw_query_failed) ;;
  Ok (existsb (is_newer createdAt) tasks).

(** A task the WHERE clause has to run the casts on. *)
Definition pending_scan (t : Task) : Prop :=
  type t = "scanWorkflowBody" /\ succeededAt t = None.

(** The payload records a creation time later than the candidate's. *)
Definition records_later (createdAt task_payload : string) : Prop :=
  exists recorded x y,
    scanWorkflowBody_createdAt task_payload = Some (Some recorded)
    /\ recorded <> EmptyString
    /\ Date_parse recorded = Some x
    /\ Date_parse createdAt = Some y
    /\ y < x.

End ScanWorkflowBody.

(** ** Sequences of calls *)

Inductive Call : Type :=
| call_create (ty payload : string) (options : CreateOptions)
| call_retry (taskId : string) (lastError : option string)
    (minRetryIntervalMins : OptionalNumber)
| call_succeed (taskId : string)
| call_cancel (taskId : string)
| call_cancelWithReference (referenceUid ty : string)
| call_cleanup.

Definition store_of {A : Type} (r : Result (A * Store)) : Result Store :=
  x <- r ;; Ok (snd x).

Definition perform (default_maxAttempts : Z) (e : Env) (c : Call) (s : Store)
  : Result Store :=
  match c with
  | call_create ty payload options =>
      store_of (create default_maxAttempts e ty payload options s)
  | call_retry taskId lastError mins => store_of (retry e taskId lastError mins s)
  | call_succeed taskId => store_of (succeed e taskId s)
  | call_cancel taskId => store_of (cancel e taskId s)
  | call_cancelWithReference ref ty => store_of (cancelWithReference e ref ty s)
  | call_cleanup => store_of (cleanup e s)
  end.

(** The table after a call: a call that throws leaves it as it was. *)
Definition after (default_maxAttempts : Z) (e : Env) (c : Call) (s : Store) : Store :=
  match perform default_maxAttempts e c s with
  | Ok s' => s'
  | Throw _ => s
  end.

Fixpoint run (default_maxAttempts : Z) (calls : list (Env * Call)) (s : Store) : Store :=
  match calls with
  | [] => s
  | (e, c) :: rest => run default_maxAttempts rest (after default_maxAttempts e c s)
  end.

(** A worker's calls on one task, stopped by the first one that throws. *)
Fixpoint run_all (default_maxAttempts : Z) (calls : list (Env * Call)) (s : Store)
  : Result Store :=
  match calls with
  | [] => Ok s
  | (e, c) :: rest =>
      s' <- perform default_maxAttempts e c s ;;
      run_all default_maxAttempts rest s'
  end.

(** The call is a [retry] or a [succeed] of the task [taskId]. *)
Definition attempt_on (taskId : string) (c : Call) : bool :=
  match c with
  | call_retry i _ _ => String.eqb i taskId
  | call_succeed i => String.eqb i taskId
  | _ => false
  end.

(** ** The classification of the data model, in the words of the specification *)

Definition spec_upcoming (now : Z) (t : Task) : bool :=
  is_null_date (succeededAt t)
  && (scheduledAt t <=? now)
  && (attempts t <? maxAttempts t).

Definition spec_failed (t : Task) : bool :=
  (maxAttempts t <=? attempts t) && is_null_date (succeededAt t).

Definition spec_succeeded (t : Task) : bool :=
  negb (is_null_date (succeededAt t)).

Definition spec_not_yet_due (now : Z) (t : Task) : bool :=
  (now <? scheduledAt t) && negb (spec_succeeded t) && negb (spec_failed t).

(** ** Well-formed tables and the range of exact intervals *)

(** The primary key and the unique pair (referenceUid, type): a unique
    selector selects at most one row. *)
Definition unique_keys (s : Store) : Prop :=
  forall w, (List.length (filter (unique_match w) s) <= 1)%nat.

(** The interval of a retry leads to a date the column takes: the time of
    the call plus the interval is in the years 1 to 9999, when the interval
    is a whole number other than 0; an infinite interval leads to none. *)
Definition accepted_interval (now : Z) (minRetryIntervalMins : OptionalNumber) : Prop :=
  match minRetryIntervalMins with
  | Num mins => mins <> 0 -> DateTime_ok (now + 60000 * mins)
  | Infinity => False
  | _ => True
  end.

(** Nothing outside the repository makes the call fail: the database is
    reachable, the time of the call is a date the columns take, and so is
    the date the interval of a retry leads to. *)
Definition can_complete (ec : Env * Call) : Prop :=
  fault (fst ec) = None
  /\ DateTime_ok (now (fst ec))
  /\ match snd ec with
     | call_retry _ _ mins => accepted_interval (now (fst ec)) mins
     | _ => True
     end.

(** The [data] that [create] passes to the insert. *)
Definition create_input (ty payload : string) (options : CreateOptions)
  : TaskCreateInput :=
  {| create_payload := payload;
     create_type := ty;
     create_scheduledAt := opt_scheduledAt options;
     create_maxAttempts := opt_maxAttempts options;
     create_referenceUid := opt_referenceUid options |}.

(** The options given fit their columns: a [scheduledAt] of the years 1 to
    9999, a [maxAttempts] in the range of [Int]. *)
Definition options_fit (options : CreateOptions) : Prop :=
  (forall due, opt_scheduledAt options = Some due -> DateTime_ok due)
  /\ (forall allowed, opt_maxAttempts options = Some allowed ->
        - INT_MAX - 1 <= allowed <= INT_MAX).

(** The keys of the new row are free. *)
Definition keys_free (e : Env) (ty : string) (options : CreateOptions) (s : Store)
  : Prop :=
  findUnique (by_id (uuid e)) s = None
  /\ forall ref, opt_referenceUid options = Some ref ->
                 findUnique (by_referenceUid_type ref ty) s = None.

(** ** Sample data *)

Definition at_time (n : Z) : Env := {| now := n; fault := None; uuid := "task-1" |}.

Definition when_failing (n : Z) (err : PrismaError) : Env :=
  {| now := n; fault := Some err; uuid := "task-1" |}.

(** A task created at time 100, due at once, with three attempts allowed. *)
Definition fresh_task : Task :=
  {| id := "task-1"; type := "sendEmail"; payload := "{}";
     scheduledAt := 100; attempts := 0; maxAttempts := 3;
     lastError := None; lastFailedAttemptAt := None; succeededAt := None;
     referenceUid := Some "booking-7"; createdAt := 100 |}.

(** The same task after two failed attempts and a successful third one. *)
Definition third_time_lucky : Store :=
  run 3 [ (at_time 100, call_create "sendEmail" "{}"
             {| opt_scheduledAt := None; opt_maxAttempts := Some 3;
                opt_referenceUid := Some "booking-7" |});
          (at_time 200, call_retry "task-1" (Some "timeout") Undefined);
          (at_time 300, call_retry "task-1" (Some "timeout") Undefined);
          (at_time 400, call_succeed "task-1") ] [].

(** The same task after three failed attempts: no attempt is left. *)
Definition exhausted : Store :=
  run 3 [ (at_time 100, call_create "sendEmail" "{}"
             {| opt_scheduledAt := None; opt_maxAttempts := Some 3;
                opt_referenceUid := Some "booking-7" |});
          (at_time 200, call_retry "task-1" (Some "timeout") Undefined);
          (at_time 300, call_retry "task-1" (Some "timeout") Undefined);
          (at_time 400, call_retry "task-1" (Some "timeout") Undefined) ] [].

(** One more retry, reported after the last attempt was used up. *)
Definition overrun : Store :=
  run 3 [ (at_time 500, call_retry "task-1" (Some "timeout") Undefined) ] exhausted.

(** The table just after the task was created at time 100. *)
Definition just_created : Store :=
  run 3 [ (at_time 100, call_create "sendEmail" "{}"
             {| opt_scheduledAt := None; opt_maxAttempts := Some 3;
                opt_referenceUid := Some "booking-7" |}) ] [].

(** A task with one attempt allowed, just created. *)
Definition exhausted_but_one : Store :=
  run 3 [ (at_time 100, call_create "sendEmail" "{}"
             {| opt_scheduledAt := None; opt_maxAttempts := Some 1;
                opt_referenceUid := None |}) ] [].

(** JSON text: a name or a string value between double quotes. *)
Definition quoted (text : string) : string :=
  let dq := String (Ascii.ascii_of_nat 34) EmptyString in
  (dq ++ text ++ dq)%string.

(** [{"workflowStepId":7}]: no [userId], rejected by the schema. *)
Definition payload_without_userId : string :=
  ("{" ++ quoted "workflowStepId" ++ ":7}")%string.

(** [{"userId":1,"workflowStepId":7}]: accepted, without [createdAt]. *)
Definition payload_without_createdAt : string :=
  ("{" ++ quoted "userId" ++ ":1," ++ quoted "workflowStepId" ++ ":7}")%string.

(** [{"userId":1,"workflowStepId":7,"createdAt":"2024-05-02"}]. *)
Definition payload_of_May_2 : string :=
  ("{" ++ quoted "userId" ++ ":1," ++ quoted "workflowStepId" ++ ":7,"
       ++ quoted "createdAt" ++ ":" ++ quoted "2024-05-02" ++ "}")%string.

(** A reading of the three external functions on the payloads of the
    examples: the text [not json] is rejected by both parsers, [{}] has no
    step, the other payloads are of step 7. *)
Definition sample_jsonb_workflowStepId (p : string) : option (option Z) :=
  if String.eqb p "not json" then None
  else if String.eqb p "{}" then Some None
  else Some (Some 7).

Definition sample_createdAt (p : string) : option (option string) :=
  if String.eqb p payload_of_May_2 then Some (Some "2024-05-02")
  else if String.eqb p payload_without_createdAt then Some None
  else None.

Definition sample_Date_parse (text : string) : option Z :=
  if String.eqb text "2024-05-01" then Some 1714521600000
  else if String.eqb text "2024-05-02" then Some 1714608000000
  else if String.eqb text "2024-05-03" then Some 1714694400000
  else None.

Definition scan_task (i p : string) : Task :=
  {| id := i; type := "scanWorkflowBody"; payload := p;
     scheduledAt := 100; attempts := 0; maxAttempts := 3;
     lastError := None; lastFailedAttemptAt := None; succeededAt := None;
     referenceUid := None; createdAt := 100 |}.

(** Reads the fields of an updated row without unfolding the arithmetic. *)
Ltac read_fields :=
  cbn [apply_update id type payload scheduledAt attempts maxAttempts lastError
       lastFailedAttemptAt succeededAt referenceUid createdAt
       data_attempts data_lastError data_lastFailedAttemptAt data_scheduledAt
       data_succeededAt set_int set_string set_nullable_date].

(** * Properties of the repository *)

(** ** Numbers and dates *)

Lemma round53_exact (x : Z) : Z.abs x <= 2 ^ 53 -> round53 x = x.
Proof.
  intros Hx. unfold round53.
  destruct (Z.leb_spec (Z.abs x) (2 ^ 53)) as [_ | Hgt]; [reflexivity | lia].
Qed.

Lemma new_Date_valid (ms : Z) : valid_time ms -> new_Date ms = ValidDate ms.
Proof.
  intros [Hlo Hhi]. unfold new_Date.
  apply Z.leb_le in Hlo. apply Z.leb_le in Hhi.
  now rewrite Hlo, Hhi.
Qed.

Lemma valid_time_exact (ms : Z) : valid_time ms -> Z.abs ms <= 2 ^ 53.
Proof.
  unfold valid_time, max_time. intros H.
  assert (8640000000000000 <= 2 ^ 53) by (vm_compute; discriminate).
  lia.
Qed.

Lemma in_Int_range_ok (n : Z) : in_Int_range n = true <-> - INT_MAX - 1 <= n <= INT_MAX.
Proof.
  unfold in_Int_range. rewrite andb_true_iff, !Z.leb_le. tauto.
Qed.

Lemma in_DateTime_range_ok (ms : Z) : in_DateTime_range ms = true <-> DateTime_ok ms.
Proof.
  unfold in_DateTime_range, DateTime_ok.
  rewrite andb_true_iff, !Z.leb_le. tauto.
Qed.

(** The dates the columns take are valid dates, and so close to the epoch
    that the arithmetic on them is exact. *)
Lemma DateTime_ok_valid (ms : Z) : DateTime_ok ms -> valid_time ms.
Proof.
  unfold DateTime_ok, valid_time, min_DateTime, max_DateTime, max_time. lia.
Qed.

Lemma DateTime_ok_product (t0 mins : Z) :
  DateTime_ok t0 -> DateTime_ok (t0 + 60000 * mins) -> Z.abs (60000 * mins) <= 2 ^ 53.
Proof.
  unfold DateTime_ok, min_DateTime, max_DateTime. intros H0 H1.
  assert (315537897599999 <= 2 ^ 53) by (vm_compute; discriminate).
  lia.
Qed.

Lemma interval_exact (t0 mins : Z) :
  Z.abs (60000 * mins) <= 2 ^ 53 ->
  valid_time (t0 + 60000 * mins) ->
  new_Date (js_add t0 (js_mul (js_mul 1000 60) mins)) = ValidDate (t0 + 60000 * mins).
Proof.
  intros Hprod Hsum.
  assert (H60 : js_mul 1000 60 = 60000) by reflexivity.
  rewrite H60. unfold js_mul, js_add.
  rewrite (round53_exact (60000 * mins)) by assumption.
  rewrite round53_exact by (apply valid_time_exact; assumption).
  apply new_Date_valid; assumption.
Qed.

(** ** Lookup, replacement and removal of a row *)

Lemma unique_match_apply_update (w : TaskWhereUniqueInput) (data : TaskUpdateInput)
  (t : Task) : unique_match w (apply_update data t) = unique_match w t.
Proof. destruct w; reflexivity. Qed.

Lemma findUnique_matches (w : TaskWhereUniqueInput) (s : Store) (t : Task) :
  findUnique w s = Some t -> unique_match w t = true /\ In t s.
Proof.
  unfold findUnique. intros H. apply find_some in H. tauto.
Qed.

Lemma findUnique_replace_row (w : TaskWhereUniqueInput) (t' : Task) (s : Store) (t : Task) :
  findUnique w s = Some t ->
  unique_match w t' = true ->
  findUnique w (replace_row w t' s) = Some t'.
Proof.
  unfold findUnique. intros Hfind Ht'.
  induction s as [| x s IH]; simpl in *; [discriminate |].
  destruct (unique_match w x) eqn:Hx.
  - simpl. now rewrite Ht'.
  - simpl. rewrite Hx. auto.
Qed.

(** ** The update and delete calls *)

Lemma db_task_update_ok (e : Env) (w : TaskWhereUniqueInput) (data : TaskUpdateInput)
  (s : Store) (t : Task) :
  fault e = None ->
  valid_data data = true ->
  accepted_data data = true ->
  findUnique w s = Some t ->
  attempts (apply_update data t) <= INT_MAX ->
  db_task_update e w data s
  = Ok (apply_update data t, replace_row w (apply_update data t) s).
Proof.
  intros Hfault Hvalid Haccepted Hfind Hmax.
  assert (Hfits : (INT_MAX <? attempts (apply_update data t)) = false)
    by (apply Z.ltb_ge; assumption).
  unfold db_task_update, connect. rewrite Hvalid, Haccepted. cbn [negb].
  rewrite Hfault. cbn [bind]. rewrite Hfind. cbv zeta.
  now rewrite Hfits.
Qed.

Lemma db_task_update_inv (e : Env) (w : TaskWhereUniqueInput) (data : TaskUpdateInput)
  (s : Store) (t' : Task) (s' : Store) :
  db_task_update e w data s = Ok (t', s') ->
  exists t, findUnique w s = Some t
            /\ t' = apply_update data t
            /\ s' = replace_row w t' s
            /\ attempts t' <= INT_MAX.
Proof.
  unfold db_task_update, connect.
  destruct (valid_data data); cbn [negb]; [| discriminate].
  destruct (accepted_data data); cbn [negb]; [| discriminate].
  destruct (fault e); cbn [bind]; [discriminate |].
  destruct (findUnique w s) as [t |]; [| discriminate].
  cbv zeta.
  destruct (Z.ltb_spec INT_MAX (attempts (apply_update data t))) as [| Hfits];
    [discriminate |].
  intros Heq. injection Heq as <- <-.
  exists t. repeat split; auto.
Qed.

Lemma db_task_update_absent (e : Env) (w : TaskWhereUniqueInput) (data : TaskUpdateInput)
  (s : Store) :
  fault e = None ->
  valid_data data = true ->
  accepted_data data = true ->
  findUnique w s = None ->
  db_task_update e w data s = Throw record_not_found.
Proof.
  intros Hfault Hvalid Haccepted Hfind.
  unfold db_task_update, connect. rewrite Hvalid, Haccepted. cbn [negb].
  rewrite Hfault. cbn [bind]. now rewrite Hfind.
Qed.

(** The [scheduledAt] a retry passes to the update, when the time of the
    call and the date the interval leads to are dates the column takes. *)
Lemma retry_interval_valid (t0 : Z) (mins : OptionalNumber) :
  DateTime_ok t0 ->
  accepted_interval t0 mins ->
  (if truthy mins
   then match mins with
        | Num n => Some (new_Date (js_add t0 (js_mul (js_mul 1000 60) n)))
        | _ => Some InvalidDate
        end
   else None)
  = match mins with
    | Num n => if n =? 0 then None else Some (ValidDate (t0 + 60000 * n))
    | _ => None
    end.
Proof.
  intros Hclock.
  destruct mins as [| | n | |]; simpl; try reflexivity; [| contradiction].
  intros Haccepted.
  destruct (Z.eqb_spec n 0) as [-> | Hn]; simpl; [reflexivity |].
  specialize (Haccepted Hn).
  rewrite interval_exact;
    [reflexivity | now apply (DateTime_ok_product t0) | now apply DateTime_ok_valid].
Qed.

(** ** retry and succeed *)

Lemma retry_ok (e : Env) (taskId : string) (lastError : option string)
  (mins : OptionalNumber) (s : Store) (t : Task) :
  findUnique (by_id taskId) s = Some t ->
  fault e = None ->
  attempts t < INT_MAX ->
  DateTime_ok (now e) ->
  accepted_interval (now e) mins ->
  let data :=
    {| data_attempts := Some (increment 1);
       data_lastError := lastError;
       data_lastFailedAttemptAt := Some (ValidDate (now e));
       data_scheduledAt :=
         match mins with
         | Num n => if n =? 0 then None else Some (ValidDate (now e + 60000 * n))
         | _ => None
         end;
       data_succeededAt := None |} in
  retry e taskId lastError mins s
  = Ok (apply_update data t, replace_row (by_id taskId) (apply_update data t) s).
Proof.
  intros Hfind Hfault Hmax Hclock Haccepted data. subst data.
  unfold retry. rewrite (retry_interval_valid (now e) mins Hclock Haccepted).
  apply db_task_update_ok; auto.
  - unfold valid_data. cbn [data_lastFailedAttemptAt data_scheduledAt
                             data_succeededAt date_ok andb].
    destruct mins as [| | n | |]; try reflexivity.
    destruct (n =? 0); reflexivity.
  - unfold accepted_data. cbn [data_lastFailedAttemptAt data_scheduledAt
                                data_succeededAt accepted_date].
    rewrite (proj2 (in_DateTime_range_ok (now e)) Hclock). cbn [andb].
    destruct mins as [| | n | |]; try reflexivity.
    destruct (Z.eqb_spec n 0) as [| Hn]; [reflexivity |].
    cbn [accepted_date].
    rewrite (proj2 (in_DateTime_range_ok _) (Haccepted Hn)). reflexivity.
  - read_fields. lia.
Qed.

Lemma succeed_ok (e : Env) (taskId : string) (s : Store) (t : Task) :
  findUnique (by_id taskId) s = Some t ->
  fault e = None ->
  attempts t < INT_MAX ->
  DateTime_ok (now e) ->
  let data :=
    {| data_attempts := Some (increment 1);
       data_lastError := None;
       data_lastFailedAttemptAt := None;
       data_scheduledAt := None;
       data_succeededAt := Some (ValidDate (now e)) |} in
  succeed e taskId s
  = Ok (apply_update data t, replace_row (by_id taskId) (apply_update data t) s).
Proof.
  intros Hfind Hfault Hmax Hclock data. subst data.
  unfold succeed. apply db_task_update_ok; auto.
  - unfold accepted_data. cbn [data_lastFailedAttemptAt data_scheduledAt
                                data_succeededAt accepted_date].
    now rewrite (proj2 (in_DateTime_range_ok (now e)) Hclock).
  - read_fields. lia.
Qed.

(** What a retry that returns has done, whatever its arguments. *)
Lemma retry_inv (e : Env) (taskId : string) (lastError : option string)
  (mins : OptionalNumber) (s : Store) (t' : Task) (s' : Store) :
  retry e taskId lastError mins s = Ok (t', s') ->
  exists t, findUnique (by_id taskId) s = Some t
            /\ findUnique (by_id taskId) s' = Some t'
            /\ s' = replace_row (by_id taskId) t' s
            /\ id t' = id t
            /\ attempts t' = attempts t + 1
            /\ succeededAt t' = succeededAt t.
Proof.
  unfold retry. intros H.
  apply db_task_update_inv in H as (t & Hfind & -> & -> & _).
  exists t. split; [assumption |]. split; [| repeat split].
  eapply findUnique_replace_row; [eassumption |].
  rewrite unique_match_apply_update.
  now apply findUnique_matches in Hfind.
Qed.

Lemma succeed_inv (e : Env) (taskId : string) (s : Store) (t' : Task) (s' : Store) :
  succeed e taskId s = Ok (t', s') ->
  exists t, findUnique (by_id taskId) s = Some t
            /\ findUnique (by_id taskId) s' = Some t'
            /\ s' = replace_row (by_id taskId) t' s
            /\ id t' = id t
            /\ attempts t' = attempts t + 1
            /\ succeededAt t' = Some (now e).
Proof.
  unfold succeed. intros H.
  apply db_task_update_inv in H as (t & Hfind & -> & -> & _).
  exists t. split; [assumption |]. split; [| repeat split].
  eapply findUnique_replace_row; [eassumption |].
  rewrite unique_match_apply_update.
  now apply findUnique_matches in Hfind.
Qed.

(** When nothing outside the repository fails, [succeed] returns, and the
    table then holds the task it returns. *)
Lemma succeed_returns (e : Env) (taskId : string) (s : Store) (t : Task) :
  findUnique (by_id taskId) s = Some t ->
  fault e = None ->
  attempts t < INT_MAX ->
  DateTime_ok (now e) ->
  exists t' s',
    succeed e taskId s = Ok (t', s')
    /\ findUnique (by_id taskId) s' = Some t'
    /\ attempts t' = attempts t + 1
    /\ succeededAt t' = Some (now e).
Proof.
  intros Hfind Hfault Hmax Hclock.
  pose proof (succeed_ok e taskId s t Hfind Hfault Hmax Hclock) as Hret.
  cbv zeta in Hret.
  eexists. eexists. split; [exact Hret |].
  split; [| split; reflexivity].
  eapply findUnique_replace_row; [eassumption |].
  rewrite unique_match_apply_update. now apply findUnique_matches in Hfind.
Qed.

(** C6 (as amended): for every existing task, a retry with a whole number
    of minutes, made when the database call does not fail, [attempts] is
    below the largest [Int], and the time of the call and the new
    [scheduledAt] are dates of the years 1 to 9999, increments [attempts] by
    exactly 1, stores [lastError] when one is [given] and keeps the previous
    one otherwise, sets [lastFailedAttemptAt] to the current time, sets
    [scheduledAt] to the current time plus [minRetryIntervalMins] minutes
    when that parameter is a number other than 0, and leaves [scheduledAt]
    unchanged when the parameter is omitted, null, 0 or NaN; all other
    fields are unchanged, and the table holds the updated task. *)
Theorem retry_updates_the_task (e : Env) (taskId : string)
  (given : option string) (minRetryIntervalMins : OptionalNumber)
  (s : Store) (t : Task) :
  findUnique (by_id taskId) s = Some t ->
  fault e = None ->
  attempts t < INT_MAX ->
  DateTime_ok (now e) ->
  accepted_interval (now e) minRetryIntervalMins ->
  exists t' s',
    retry e taskId given minRetryIntervalMins s = Ok (t', s')
    /\ findUnique (by_id taskId) s' = Some t'
    /\ attempts t' = attempts t + 1
    /\ lastError t' = match given with
                      | Some message => Some message
                      | None => lastError t
                      end
    /\ lastFailedAttemptAt t' = Some (now e)
    /\ scheduledAt t' = match minRetryIntervalMins with
                        | Num mins => if mins =? 0 then scheduledAt t
                                      else now e + 60000 * mins
                        | _ => scheduledAt t
                        end
    /\ id t' = id t
    /\ type t' = type t
    /\ payload t' = payload t
    /\ maxAttempts t' = maxAttempts t
    /\ succeededAt t' = succeededAt t
    /\ referenceUid t' = referenceUid t
    /\ createdAt t' = createdAt t.
Proof.
  intros Hfind Hfault Hmax Hclock Haccepted.
  pose proof (retry_ok e taskId given minRetryIntervalMins s t
                Hfind Hfault Hmax Hclock Haccepted) as Hret.
  cbv zeta in Hret.
  eexists. eexists. split; [exact Hret |].
  split.
  { eapply findUnique_replace_row; [eassumption |].
    rewrite unique_match_apply_update. now apply findUnique_matches in Hfind. }
  read_fields.
  assert (Hsched :
            set_date
              match minRetryIntervalMins with
              | Num n => if n =? 0 then None
                         else Some (ValidDate (now e + 60000 * n))
              | _ => None
              end (scheduledAt t)
            = match minRetryIntervalMins with
              | Num mins => if mins =? 0 then scheduledAt t
                            else now e + 60000 * mins
              | _ => scheduledAt t
              end).
  { destruct minRetryIntervalMins as [| | n | |]; try reflexivity.
    destruct (n =? 0); reflexivity. }
  rewrite Hsched.
  destruct given; repeat (split; try reflexivity).
Qed.

Lemma retry_updates_the_task_witness :
  exists t' s',
    retry (at_time 500) "task-1" (Some "timeout") (Num 5) [fresh_task] = Ok (t', s')
    /\ findUnique (by_id "task-1") s' = Some t'
    /\ attempts t' = 1
    /\ scheduledAt t' = 300500.
Proof.
  destruct (retry_updates_the_task (at_time 500) "task-1" (Some "timeout") (Num 5)
              [fresh_task] fresh_task)
    as (t' & s' & Hret & Hfind & Hattempts & _ & _ & Hsched & _).
  - reflexivity.
  - reflexivity.
  - reflexivity.
  - split; vm_compute; discriminate.
  - intros _. split; vm_compute; discriminate.
  - exists t', s'. split; [exact Hret |]. split; [exact Hfind |].
    split; [exact Hattempts | exact Hsched].
Defined.

(** C6 (as stated) fails when the parameter is given as 0: the task keeps,
    in the table, its [scheduledAt] of 100 instead of being moved to the
    current time 500. *)
Lemma retry_with_zero_interval_keeps_scheduledAt :
  exists t' s',
    retry (at_time 500) "task-1" (Some "timeout") (Num 0) [fresh_task] = Ok (t', s')
    /\ findUnique (by_id "task-1") s' = Some t'
    /\ scheduledAt t' = 100
    /\ scheduledAt t' <> now (at_time 500) + 60000 * 0.
Proof.
  eexists. eexists. split; [vm_compute; reflexivity |].
  split; [reflexivity |]. split; [reflexivity | discriminate].
Qed.

(** An interval that is [undefined], [null], [0] or NaN builds the same
    update. *)
Lemma retry_falsy_interval (e : Env) (taskId : string) (given : option string)
  (s : Store) :
  retry e taskId given (Num 0) s = retry e taskId given Undefined s
  /\ retry e taskId given Null s = retry e taskId given Undefined s
  /\ retry e taskId given NaN s = retry e taskId given Undefined s.
Proof. repeat split. Qed.

(** C10: for every existing task, a retry with [minRetryIntervalMins] equal
    to 0 or null (or NaN) behaves exactly as the retry with the parameter
    omitted; when the database call does not fail, [attempts] is below the
    largest [Int] and the time of the call is a date of the years 1 to
    9999, it returns and the table then holds the task with [scheduledAt]
    unchanged, [attempts] incremented and [lastFailedAttemptAt] set to the
    current time. *)
Theorem retry_zero_interval_as_omitted (e : Env) (taskId : string)
  (given : option string) (s : Store) (t : Task) :
  findUnique (by_id taskId) s = Some t ->
  fault e = None ->
  attempts t < INT_MAX ->
  DateTime_ok (now e) ->
  retry e taskId given (Num 0) s = retry e taskId given Undefined s
  /\ retry e taskId given Null s = retry e taskId given Undefined s
  /\ forall minRetryIntervalMins,
       minRetryIntervalMins = Num 0 \/ minRetryIntervalMins = Null
       \/ minRetryIntervalMins = NaN ->
       exists t' s',
         retry e taskId given minRetryIntervalMins s = Ok (t', s')
         /\ findUnique (by_id taskId) s' = Some t'
         /\ scheduledAt t' = scheduledAt t
         /\ attempts t' = attempts t + 1
         /\ lastFailedAttemptAt t' = Some (now e).
Proof.
  intros Hfind Hfault Hmax Hclock.
  destruct (retry_falsy_interval e taskId given s) as (Hzero & Hnull & Hnan).
  split; [exact Hzero |]. split; [exact Hnull |].
  pose proof (retry_ok e taskId given Undefined s t Hfind Hfault Hmax Hclock I)
    as Hret.
  cbv zeta in Hret.
  intros mins [-> | [-> | ->]];
    [rewrite Hzero | rewrite Hnull | rewrite Hnan];
    (eexists; eexists; split; [exact Hret |]; split;
     [eapply findUnique_replace_row; [eassumption |];
      rewrite unique_match_apply_update; now apply findUnique_matches in Hfind
     | repeat split]).
Qed.

Lemma retry_zero_interval_as_omitted_witness :
  retry (at_time 500) "task-1" None (Num 0) [fresh_task]
  = retry (at_time 500) "task-1" None Undefined [fresh_task]
  /\ exists t' s',
       retry (at_time 500) "task-1" None (Num 0) [fresh_task] = Ok (t', s')
       /\ findUnique (by_id "task-1") s' = Some t'
       /\ scheduledAt t' = 100
       /\ attempts t' = 1
       /\ lastFailedAttemptAt t' = Some 500.
Proof.
  destruct (retry_zero_interval_as_omitted (at_time 500) "task-1" None
              [fresh_task] fresh_task)
    as (Hzero & _ & Hkeeps).
  - reflexivity.
  - reflexivity.
  - reflexivity.
  - split; vm_compute; discriminate.
  - split; [exact Hzero |].
    destruct (Hkeeps (Num 0))
      as (t' & s' & Hret & Hfind & Hsched & Hattempts & Hlast);
      [left; reflexivity |].
    exists t', s'. repeat split; assumption.
Defined.

(** ** One attempt *)

Lemma attempt_step (d : Z) (taskId : string) (e : Env) (c : Call) (s s' : Store)
  (t : Task) :
  attempt_on taskId c = true ->
  findUnique (by_id taskId) s = Some t ->
  perform d e c s = Ok s' ->
  exists t', findUnique (by_id taskId) s' = Some t'
             /\ attempts t' = attempts t + 1.
Proof.
  intros Hon Hfind Hperform.
  destruct c as [ty p o | i given mins | i | i | r ty |]; try discriminate;
    simpl in Hon; apply String.eqb_eq in Hon; subst i;
    simpl in Hperform; unfold store_of in Hperform.
  - destruct (retry e taskId given mins s) as [[t1 s1] | err] eqn:Hret;
      [| discriminate].
    simpl in Hperform. injection Hperform as <-.
    apply retry_inv in Hret as (t0 & Hfind0 & Hfind1 & _ & _ & Hattempts & _).
    rewrite Hfind in Hfind0. injection Hfind0 as <-.
    exists t1. split; assumption.
  - destruct (succeed e taskId s) as [[t1 s1] | err] eqn:Hret; [| discriminate].
    simpl in Hperform. injection Hperform as <-.
    apply succeed_inv in Hret as (t0 & Hfind0 & Hfind1 & _ & _ & Hattempts & _).
    rewrite Hfind in Hfind0. injection Hfind0 as <-.
    exists t1. split; assumption.
Qed.

Lemma attempt_step_ok (d : Z) (taskId : string) (e : Env) (c : Call) (s : Store)
  (t : Task) :
  attempt_on taskId c = true ->
  findUnique (by_id taskId) s = Some t ->
  can_complete (e, c) ->
  attempts t < INT_MAX ->
  exists s', perform d e c s = Ok s'.
Proof.
  intros Hon Hfind (Hfault & Hclock & Haccepted) Hmax.
  simpl in Hfault, Hclock, Haccepted.
  destruct c as [ty p o | i given mins | i | i | r ty |]; try discriminate;
    simpl in Hon; apply String.eqb_eq in Hon; subst i;
    simpl; unfold store_of.
  - rewrite (retry_ok e taskId given mins s t Hfind Hfault Hmax Hclock Haccepted).
    simpl. eexists. reflexivity.
  - rewrite (succeed_ok e taskId s t Hfind Hfault Hmax Hclock).
    simpl. eexists. reflexivity.
Qed.

(** ** Cancelling *)

Lemma db_task_delete_ok (e : Env) (w : TaskWhereUniqueInput) (s : Store) (t : Task) :
  fault e = None ->
  findUnique w s = Some t ->
  db_task_delete e w s = Ok (t, remove_row w s).
Proof.
  intros Hfault Hfind. unfold db_task_delete, connect.
  rewrite Hfault. cbn [bind]. now rewrite Hfind.
Qed.

Lemma db_task_delete_absent (e : Env) (w : TaskWhereUniqueInput) (s : Store) :
  fault e = None ->
  findUnique w s = None ->
  db_task_delete e w s = Throw record_not_found.
Proof.
  intros Hfault Hfind. unfold db_task_delete, connect.
  rewrite Hfault. cbn [bind]. now rewrite Hfind.
Qed.

Lemma db_task_delete_fault (e : Env) (w : TaskWhereUniqueInput) (s : Store)
  (err : PrismaError) :
  fault e = Some err -> db_task_delete e w s = Throw err.
Proof.
  intros Hfault. unfold db_task_delete, connect. now rewrite Hfault.
Qed.

(** Deleting takes exactly the selected row out of the table. *)
Lemma remove_row_permutation (w : TaskWhereUniqueInput) (s : Store) (t : Task) :
  findUnique w s = Some t -> Permutation s (t :: remove_row w s).
Proof.
  unfold findUnique.
  induction s as [| x s IH]; simpl; [discriminate |].
  destruct (unique_match w x) eqn:Hx.
  - intros H. injection H as <-. apply Permutation_refl.
  - intros H. eapply perm_trans; [apply perm_skip, IH, H | apply perm_swap].
Qed.

Lemma unique_keys_tail (x : Task) (s : Store) : unique_keys (x :: s) -> unique_keys s.
Proof.
  intros Hu w. specialize (Hu w). simpl in Hu.
  destruct (unique_match w x); simpl in Hu; lia.
Qed.

Lemma unique_keys_head (w : TaskWhereUniqueInput) (x : Task) (s : Store) :
  unique_keys (x :: s) -> unique_match w x = true -> findUnique w s = None.
Proof.
  intros Hu Hx. specialize (Hu w). simpl in Hu. rewrite Hx in Hu. simpl in Hu.
  unfold findUnique.
  destruct (find (unique_match w) s) as [y |] eqn:Hfind; [| reflexivity].
  apply find_some in Hfind as [Hin Hy].
  assert (Hfiltered : In y (filter (unique_match w) s))
    by (apply filter_In; split; assumption).
  destruct (filter (unique_match w) s); [contradiction | simpl in Hu; lia].
Qed.

(** Under the unique constraints, a selector finds after a delete what it
    found before, or nothing. *)
Lemma findUnique_remove_row (w v : TaskWhereUniqueInput) (s : Store) :
  unique_keys s ->
  findUnique v (remove_row w s) = findUnique v s
  \/ findUnique v (remove_row w s) = None.
Proof.
  induction s as [| x s IH]; intros Hu; simpl; [now left |].
  destruct (unique_match w x) eqn:Hw.
  - unfold findUnique at 2. simpl.
    destruct (unique_match v x) eqn:Hv.
    + right. eapply unique_keys_head; eassumption.
    + now left.
  - unfold findUnique at 1 3. simpl.
    destruct (unique_match v x); [now left |].
    apply IH. eapply unique_keys_tail; eassumption.
Qed.

Lemma findUnique_remove_same (w : TaskWhereUniqueInput) (s : Store) :
  unique_keys s -> findUnique w (remove_row w s) = None.
Proof.
  induction s as [| x s IH]; intros Hu; simpl; [reflexivity |].
  destruct (unique_match w x) eqn:Hw.
  - eapply unique_keys_head; eassumption.
  - unfold findUnique. simpl. rewrite Hw.
    apply IH. eapply unique_keys_tail; eassumption.
Qed.

Lemma succeed_absent (e : Env) (taskId : string) (s : Store) :
  findUnique (by_id taskId) s = None ->
  fault e = None ->
  DateTime_ok (now e) ->
  succeed e taskId s = Throw record_not_found.
Proof.
  intros Hfind Hfault Hclock.
  unfold succeed. apply db_task_update_absent; auto.
  unfold accepted_data. cbn [data_lastFailedAttemptAt data_scheduledAt
                              data_succeededAt accepted_date].
  now rewrite (proj2 (in_DateTime_range_ok (now e)) Hclock).
Qed.

Lemma retry_absent (e : Env) (taskId : string) (given : option string)
  (mins : OptionalNumber) (s : Store) :
  findUnique (by_id taskId) s = None ->
  fault e = None ->
  DateTime_ok (now e) ->
  accepted_interval (now e) mins ->
  retry e taskId given mins s = Throw record_not_found.
Proof.
  intros Hfind Hfault Hclock Haccepted.
  unfold retry. rewrite (retry_interval_valid (now e) mins Hclock Haccepted).
  apply db_task_update_absent; auto.
  - unfold valid_data. cbn [data_lastFailedAttemptAt data_scheduledAt
                             data_succeededAt date_ok andb].
    destruct mins as [| | n | |]; try reflexivity.
    destruct (n =? 0); reflexivity.
  - unfold accepted_data. cbn [data_lastFailedAttemptAt data_scheduledAt
                                data_succeededAt accepted_date].
    rewrite (proj2 (in_DateTime_range_ok (now e)) Hclock). cbn [andb].
    destruct mins as [| | n | |]; try reflexivity.
    destruct (Z.eqb_spec n 0) as [| Hn]; [reflexivity |].
    cbn [accepted_date].
    rewrite (proj2 (in_DateTime_range_ok _) (Haccepted Hn)). reflexivity.
Qed.

(** C8: [cancelWithReference] deletes the matching task and returns its id
    when one exists, returns null without throwing when none exists, and
    rethrows every error of the database other than record-not-found;
    [cancel], [succeed] and [retry] throw the record-not-found error when no
    task has the id ([succeed] and [retry] when the dates they pass, the
    time of the call and the new [scheduledAt], are dates of the years 1 to
    9999, which the update checks before it looks the task up). *)
Theorem cancelWithReference_absorbs_only_not_found (e : Env)
  (referenceUid ty : string) (s : Store) :
  (forall t, fault e = None ->
     findUnique (by_referenceUid_type referenceUid ty) s = Some t ->
     exists s', cancelWithReference e referenceUid ty s = Ok (Some (id t), s')
                /\ Permutation s (t :: s')
                /\ (unique_keys s ->
                    findUnique (by_referenceUid_type referenceUid ty) s' = None))
  /\ (fault e = None ->
      findUnique (by_referenceUid_type referenceUid ty) s = None ->
      cancelWithReference e referenceUid ty s = Ok (None, s))
  /\ (forall err, fault e = Some err -> err <> record_not_found ->
      cancelWithReference e referenceUid ty s = Throw err)
  /\ (forall taskId, fault e = None -> findUnique (by_id taskId) s = None ->
      cancel e taskId s = Throw record_not_found
      /\ (DateTime_ok (now e) ->
          succeed e taskId s = Throw record_not_found
          /\ forall given mins, accepted_interval (now e) mins ->
               retry e taskId given mins s = Throw record_not_found)).
Proof.
  split; [| split; [| split]].
  - intros t Hfault Hfind.
    exists (remove_row (by_referenceUid_type referenceUid ty) s).
    split; [| split].
    + unfold cancelWithReference.
      now rewrite (db_task_delete_ok e _ s t Hfault Hfind).
    + now apply remove_row_permutation.
    + apply findUnique_remove_same.
  - intros Hfault Hfind. unfold cancelWithReference.
    now rewrite (db_task_delete_absent e _ s Hfault Hfind).
  - intros err Hfault Hother. unfold cancelWithReference.
    rewrite (db_task_delete_fault e _ s err Hfault). simpl.
    destruct err as [code | message | message]; try reflexivity.
    destruct (String.eqb_spec code "P2025") as [-> | Hcode]; [| reflexivity].
    now contradiction Hother.
  - intros taskId Hfault Hfind. split.
    + now apply db_task_delete_absent.
    + intros Hclock. split.
      * now apply succeed_absent.
      * intros given mins Haccepted. now apply retry_absent.
Qed.

Lemma unique_keys_singleton (t : Task) : unique_keys [t].
Proof.
  intros w. simpl. destruct (unique_match w t); simpl; lia.
Qed.

Lemma cancelWithReference_absorbs_only_not_found_witness :
  (exists s', cancelWithReference (at_time 500) "booking-7" "sendEmail" [fresh_task]
              = Ok (Some "task-1", s')
              /\ findUnique (by_referenceUid_type "booking-7" "sendEmail") s' = None)
  /\ cancelWithReference (at_time 500) "booking-8" "sendEmail" [fresh_task]
     = Ok (None, [fresh_task])
  /\ cancelWithReference
       (when_failing 500 (PrismaClientKnownRequestError "P1001"))
       "booking-7" "sendEmail" [fresh_task]
     = Throw (PrismaClientKnownRequestError "P1001")
  /\ cancel (at_time 500) "task-2" [fresh_task] = Throw record_not_found
  /\ succeed (at_time 500) "task-2" [fresh_task] = Throw record_not_found
  /\ retry (at_time 500) "task-2" (Some "timeout") (Num 5) [fresh_task]
     = Throw record_not_found.
Proof.
  destruct (cancelWithReference_absorbs_only_not_found
              (at_time 500) "booking-7" "sendEmail" [fresh_task])
    as (Hdeletes & _ & _ & Hpropagates).
  destruct (cancelWithReference_absorbs_only_not_found
              (at_time 500) "booking-8" "sendEmail" [fresh_task])
    as (_ & Hnull & _ & _).
  destruct (cancelWithReference_absorbs_only_not_found
              (when_failing 500 (PrismaClientKnownRequestError "P1001"))
              "booking-7" "sendEmail" [fresh_task])
    as (_ & _ & Hrethrows & _).
  destruct (Hpropagates "task-2") as (Hcancel & Hupdates);
    [reflexivity | reflexivity |].
  destruct Hupdates as (Hsucceed & Hretry); [split; vm_compute; discriminate |].
  split; [| split; [| split; [| split; [| split]]]].
  - destruct (Hdeletes fresh_task) as (s' & Hret & _ & Hgone);
      [reflexivity | reflexivity |].
    exists s'. split; [exact Hret |].
    apply Hgone, unique_keys_singleton.
  - apply Hnull; reflexivity.
  - apply Hrethrows; [reflexivity | discriminate].
  - exact Hcancel.
  - exact Hsucceed.
  - apply Hretry. intros _. split; vm_compute; discriminate.
Defined.

(** ** The unique constraints are kept by every call *)

Lemma filter_none (f : Task -> bool) (s : Store) :
  existsb f s = false -> filter f s = [].
Proof.
  induction s as [| x s IH]; simpl; [reflexivity |].
  destruct (f x); simpl; [discriminate | exact IH].
Qed.

Lemma unique_keys_remove_row (w : TaskWhereUniqueInput) (s : Store) :
  unique_keys s -> unique_keys (remove_row w s).
Proof.
  intros Hu v. specialize (Hu v).
  assert (Hle : (List.length (filter (unique_match v) (remove_row w s))
                 <= List.length (filter (unique_match v) s))%nat).
  { clear Hu. induction s as [| x s IH]; simpl; [lia |].
    destruct (unique_match w x); simpl; destruct (unique_match v x); simpl; lia. }
  lia.
Qed.

Lemma unique_keys_replace_row (w : TaskWhereUniqueInput) (data : TaskUpdateInput)
  (s : Store) (t : Task) :
  findUnique w s = Some t ->
  unique_keys s ->
  unique_keys (replace_row w (apply_update data t) s).
Proof.
  intros Hfind Hu v. specialize (Hu v).
  assert (Heq : List.length (filter (unique_match v)
                               (replace_row w (apply_update data t) s))
                = List.length (filter (unique_match v) s)).
  { clear Hu. unfold findUnique in Hfind.
    induction s as [| x s IH]; simpl in *; [reflexivity |].
    destruct (unique_match w x).
    - injection Hfind as ->. simpl. rewrite unique_match_apply_update.
      destruct (unique_match v t); reflexivity.
    - simpl. destruct (unique_match v x); simpl; rewrite (IH Hfind); reflexivity. }
  lia.
Qed.

Lemma unique_keys_insert (t : Task) (s : Store) :
  violates_unique t s = false ->
  unique_keys s ->
  unique_keys (s ++ [t]).
Proof.
  intros Hfree Hu v. specialize (Hu v).
  rewrite filter_app, length_app. simpl.
  destruct (unique_match v t) eqn:Hv; simpl; [| lia].
  unfold violates_unique in Hfree. apply orb_false_iff in Hfree as [Hid Href].
  assert (Hnone : filter (unique_match v) s = []).
  { destruct v as [i | r ty]; simpl in Hv.
    - apply String.eqb_eq in Hv. subst i. now apply filter_none.
    - destruct (referenceUid t) as [r' |]; [| discriminate].
      apply andb_true_iff in Hv as [Hr Hty].
      apply String.eqb_eq in Hr. apply String.eqb_eq in Hty. subst r' ty.
      now apply filter_none. }
  rewrite Hnone. simpl. lia.
Qed.

Lemma create_inv (d : Z) (e : Env) (ty p : string) (options : CreateOptions)
  (s s' : Store) (taskId : string) :
  create d e ty p options s = Ok (taskId, s') ->
  fault e = None
  /\ accepted_create (create_input ty p options) = true
  /\ violates_unique (new_row d e (create_input ty p options)) s = false
  /\ taskId = id (new_row d e (create_input ty p options))
  /\ s' = s ++ [new_row d e (create_input ty p options)].
Proof.
  unfold create, db_task_create, connect. fold (create_input ty p options).
  destruct (fault e); [discriminate |]. cbn [bind].
  destruct (accepted_create (create_input ty p options)); cbn [negb];
    [| discriminate].
  cbv zeta.
  destruct (violates_unique (new_row d e (create_input ty p options)) s);
    [discriminate |].
  cbn [bind fst snd]. intros Heq. injection Heq as <- <-.
  repeat split.
Qed.

Lemma create_ok (d : Z) (e : Env) (ty p : string) (options : CreateOptions)
  (s : Store) :
  fault e = None ->
  accepted_create (create_input ty p options) = true ->
  violates_unique (new_row d e (create_input ty p options)) s = false ->
  create d e ty p options s
  = Ok (uuid e, s ++ [new_row d e (create_input ty p options)]).
Proof.
  intros Hfault Haccepted Hfree.
  unfold create, db_task_create, connect. fold (create_input ty p options).
  rewrite Hfault. cbn [bind]. rewrite Haccepted. cbn [negb]. cbv zeta.
  rewrite Hfree. reflexivity.
Qed.

(** What a call can do to the table: nothing, append a row that breaks no
    unique constraint, update the row a selector finds, or remove the row a
    selector finds. *)
Lemma after_cases (d : Z) (e : Env) (c : Call) (s : Store) :
  after d e c s = s
  \/ (exists t, after d e c s = s ++ [t] /\ violates_unique t s = false)
  \/ (exists w data t, findUnique w s = Some t
                       /\ data_attempts data = Some (increment 1)
                       /\ after d e c s = replace_row w (apply_update data t) s)
  \/ (exists w, after d e c s = remove_row w s).
Proof.
  unfold after.
  destruct (perform d e c s) as [s' |] eqn:Hperform; [| now left].
  destruct c as [ty p o | i given mins | i | i | r ty |];
    simpl in Hperform; unfold store_of in Hperform.
  - destruct (create d e ty p o s) as [[i s1] |] eqn:Hret; [| discriminate].
    cbn [bind snd] in Hperform. injection Hperform as <-.
    apply create_inv in Hret as (_ & _ & Hfree & _ & ->).
    right; left. eexists. split; [reflexivity | exact Hfree].
  - destruct (retry e i given mins s) as [[t1 s1] |] eqn:Hret; [| discriminate].
    cbn [bind snd] in Hperform. injection Hperform as <-.
    unfold retry in Hret.
    apply db_task_update_inv in Hret as (t & Hfind & -> & -> & _).
    right; right; left. eexists. eexists. eexists.
    split; [exact Hfind |]. split; [| reflexivity]. reflexivity.
  - destruct (succeed e i s) as [[t1 s1] |] eqn:Hret; [| discriminate].
    cbn [bind snd] in Hperform. injection Hperform as <-.
    unfold succeed in Hret.
    apply db_task_update_inv in Hret as (t & Hfind & -> & -> & _).
    right; right; left. eexists. eexists. eexists.
    split; [exact Hfind |]. split; [| reflexivity]. reflexivity.
  - unfold cancel, db_task_delete, connect in Hperform.
    destruct (fault e); [discriminate |]. cbn [bind] in Hperform.
    destruct (findUnique (by_id i) s); [| discriminate].
    cbn [bind snd] in Hperform. injection Hperform as <-.
    right; right; right. eexists. reflexivity.
  - unfold cancelWithReference, db_task_delete, connect in Hperform.
    destruct (fault e) as [err |].
    + cbn [bind try_catch] in Hperform.
      destruct err as [code | |]; try discriminate.
      destruct (String.eqb code "P2025"); [| discriminate].
      cbn [bind snd] in Hperform. injection Hperform as <-. now left.
    + cbn [bind] in Hperform.
      destruct (findUnique (by_referenceUid_type r ty) s).
      * cbn [bind try_catch fst snd] in Hperform. injection Hperform as <-.
        right; right; right. eexists. reflexivity.
      * cbn [bind try_catch snd] in Hperform.
        change (String.eqb "P2025" "P2025") with true in Hperform.
        cbn [bind snd] in Hperform. injection Hperform as <-. now left.
  - unfold cleanup in Hperform. cbn [bind snd] in Hperform.
    injection Hperform as <-. now left.
Qed.

Lemma unique_keys_after (d : Z) (e : Env) (c : Call) (s : Store) :
  unique_keys s -> unique_keys (after d e c s).
Proof.
  intros Hu.
  destruct (after_cases d e c s)
    as [-> | [(t & -> & Hfree) | [(w & data & t & Hfind & _ & ->) | (w & ->)]]].
  - exact Hu.
  - now apply unique_keys_insert.
  - now apply unique_keys_replace_row.
  - now apply unique_keys_remove_row.
Qed.

Lemma unique_keys_run (d : Z) (calls : list (Env * Call)) (s : Store) :
  unique_keys s -> unique_keys (run d calls s).
Proof.
  revert s. induction calls as [| [e c] calls IH]; intros s Hu; simpl; [exact Hu |].
  apply IH, unique_keys_after, Hu.
Qed.

(** ** succeededAt *)

Lemma findUnique_insert (v : TaskWhereUniqueInput) (s : Store) (x t : Task) :
  findUnique v s = Some t -> findUnique v (s ++ [x]) = Some t.
Proof.
  unfold findUnique.
  induction s as [| y s IH]; simpl; [discriminate |].
  destruct (unique_match v y); auto.
Qed.

(** After an update a selector finds the row it found before, or the updated
    row in place of the one it found before. *)
Lemma findUnique_replace_update (w v : TaskWhereUniqueInput) (data : TaskUpdateInput)
  (s : Store) (t x : Task) :
  findUnique w s = Some t ->
  findUnique v s = Some x ->
  findUnique v (replace_row w (apply_update data t) s) = Some x
  \/ (x = t /\ findUnique v (replace_row w (apply_update data t) s)
               = Some (apply_update data t)).
Proof.
  unfold findUnique.
  induction s as [| y s IH]; simpl; [discriminate |].
  destruct (unique_match w y) eqn:Hw.
  - intros Ht. injection Ht as ->. simpl.
    rewrite unique_match_apply_update.
    destruct (unique_match v t).
    + intros Hx. injection Hx as <-. right. split; reflexivity.
    + intros Hx. now left.
  - intros Ht. simpl.
    destruct (unique_match v y); [intros Hx; now left | now apply IH].
Qed.

Lemma set_nullable_date_keeps (u : option JsDate) (old : option Z) :
  old <> None -> set_nullable_date u old <> None.
Proof.
  intros Hold. destruct u as [[ms |] |]; simpl; [discriminate | assumption ..].
Qed.

(** A call never lowers the counter of a task found under its id, and
    never turns a succeeded task into an unsucceeded one. *)
Lemma after_found (d : Z) (e : Env) (c : Call) (taskId : string) (s : Store)
  (t t' : Task) :
  unique_keys s ->
  findUnique (by_id taskId) s = Some t ->
  findUnique (by_id taskId) (after d e c s) = Some t' ->
  attempts t <= attempts t'
  /\ (succeededAt t <> None -> succeededAt t' <> None).
Proof.
  intros Hu Hfind.
  destruct (after_cases d e c s)
    as [-> | [(x & -> & _) | [(w & data & t0 & Hfind0 & Hincr & ->) | (w & ->)]]].
  - rewrite Hfind. intros H. injection H as <-. split; [lia | auto].
  - rewrite (findUnique_insert _ s x t Hfind). intros H. injection H as <-.
    split; [lia | auto].
  - destruct (findUnique_replace_update w (by_id taskId) data s t0 t Hfind0 Hfind)
      as [-> | [-> ->]].
    + intros H. injection H as <-. split; [lia | auto].
    + intros H. injection H as <-. read_fields. rewrite Hincr. read_fields.
      split; [lia |].
      apply set_nullable_date_keeps.
  - destruct (findUnique_remove_row w (by_id taskId) s Hu) as [-> | ->].
    + rewrite Hfind. intros H. injection H as <-. split; [lia | auto].
    + discriminate.
Qed.

(** What holds of a task from one call to the next holds along every
    sequence of calls, up to the deletion of the task. *)
Lemma run_found (R : Task -> Task -> Prop) (d : Z) (taskId : string) :
  (forall t, R t t) ->
  (forall t1 t2 t3, R t1 t2 -> R t2 t3 -> R t1 t3) ->
  (forall e c s t t', unique_keys s ->
     findUnique (by_id taskId) s = Some t ->
     findUnique (by_id taskId) (after d e c s) = Some t' -> R t t') ->
  forall calls s t,
    unique_keys s ->
    findUnique (by_id taskId) s = Some t ->
    (exists t', findUnique (by_id taskId) (run d calls s) = Some t' /\ R t t')
    \/ (exists n, findUnique (by_id taskId) (run d (firstn n calls) s) = None).
Proof.
  intros Hrefl Htrans Hstep calls.
  induction calls as [| [e c] calls IH]; intros s t Hu Hfind.
  - left. exists t. split; [assumption | apply Hrefl].
  - destruct (findUnique (by_id taskId) (after d e c s)) as [t1 |] eqn:Hfind1.
    + destruct (IH (after d e c s) t1 (unique_keys_after d e c s Hu) Hfind1)
        as [(t' & Hfind' & Hrel) | [n Hgone]].
      * left. exists t'. split; [exact Hfind' |].
        eapply Htrans; [eapply Hstep; eassumption | exact Hrel].
      * right. exists (S n). exact Hgone.
    + right. exists 1%nat. simpl. exact Hfind1.
Qed.

(** ** Counting attempts along sequences of calls *)

(** C7: [attempts] never decreases and increases by exactly 1 per retry or
    succeed call: when a sequence of N such calls on an existing task
    returns, [attempts] is its initial value plus N; the sequence does
    return when the database calls do not fail, the times of the calls and
    the dates the retry intervals lead to are dates of the years 1 to 9999,
    and the counter stays in the range of [Int]; [succeed] also sets
    [succeededAt] to the current time, in the table; and along any sequence
    of calls of the repository the counter of the task is never below its
    initial value for as long as the task exists. *)
Theorem attempts_grow_by_one_per_call (d : Z) (taskId : string) (s : Store) (t : Task) :
  findUnique (by_id taskId) s = Some t ->
  (forall calls s',
     Forall (fun ec => attempt_on taskId (snd ec) = true) calls ->
     run_all d calls s = Ok s' ->
     exists t', findUnique (by_id taskId) s' = Some t'
                /\ attempts t' = attempts t + Z.of_nat (List.length calls))
  /\ (forall calls,
        Forall (fun ec => attempt_on taskId (snd ec) = true) calls ->
        Forall can_complete calls ->
        attempts t + Z.of_nat (List.length calls) <= INT_MAX ->
        exists s', run_all d calls s = Ok s')
  /\ (forall e, fault e = None -> attempts t < INT_MAX -> DateTime_ok (now e) ->
        exists t' s', succeed e taskId s = Ok (t', s')
                      /\ findUnique (by_id taskId) s' = Some t'
                      /\ attempts t' = attempts t + 1
                      /\ succeededAt t' = Some (now e))
  /\ (unique_keys s ->
      forall calls,
        (exists t', findUnique (by_id taskId) (run d calls s) = Some t'
                    /\ attempts t <= attempts t')
        \/ (exists n, findUnique (by_id taskId) (run d (firstn n calls) s) = None)).
Proof.
  intros Hfind. split; [| split; [| split]].
  - intros calls s' Hcalls. revert s t Hfind s'.
    induction Hcalls as [| [e c] calls Hon _ IH]; intros s t Hfind s' Hrun.
    + simpl in Hrun. injection Hrun as <-. exists t. split; [assumption |].
      simpl. lia.
    + simpl in Hrun.
      destruct (perform d e c s) as [s1 | err] eqn:Hperform; [| discriminate].
      simpl in Hrun, Hon.
      destruct (attempt_step d taskId e c s s1 t Hon Hfind Hperform)
        as (t1 & Hfind1 & Hattempts1).
      destruct (IH s1 t1 Hfind1 s' Hrun) as (t' & Hfind' & Hattempts').
      exists t'. split; [assumption |].
      rewrite Hattempts', Hattempts1.
      change (List.length ((e, c) :: calls)) with (S (List.length calls)). lia.
  - intros calls Hcalls. revert s t Hfind.
    induction Hcalls as [| [e c] calls Hon _ IH]; intros s t Hfind Hfree Hmax.
    + exists s. reflexivity.
    + change (List.length ((e, c) :: calls)) with (S (List.length calls)) in Hmax.
      inversion Hfree as [| ? ? Hfree1 Hfree2]; subst.
      simpl in Hon.
      destruct (attempt_step_ok d taskId e c s t Hon Hfind Hfree1) as [s1 Hperform];
        [lia |].
      destruct (attempt_step d taskId e c s s1 t Hon Hfind Hperform)
        as (t1 & Hfind1 & Hattempts1).
      destruct (IH s1 t1 Hfind1 Hfree2) as [s' Hrun]; [lia |].
      exists s'. simpl. rewrite Hperform. exact Hrun.
  - intros e Hfault Hmax Hclock. now apply succeed_returns.
  - intros Hu calls.
    apply (run_found (fun t1 t2 => attempts t1 <= attempts t2) d taskId);
      try assumption.
    + intros t0. lia.
    + intros t1 t2 t3 H12 H23. lia.
    + intros e c s0 t0 t0' Hu0 Hfind0 Hfind0'.
      now apply (after_found d e c taskId s0 t0 t0' Hu0 Hfind0 Hfind0').
Qed.

Lemma attempts_grow_by_one_per_call_witness :
  exists s' t',
    run_all 3 [ (at_time 200, call_retry "task-1" (Some "timeout") (Num 5));
                (at_time 300, call_succeed "task-1") ] [fresh_task] = Ok s'
    /\ findUnique (by_id "task-1") s' = Some t'
    /\ attempts t' = 2.
Proof.
  destruct (attempts_grow_by_one_per_call 3 "task-1" [fresh_task] fresh_task)
    as (Hcount & Hreturns & _).
  - reflexivity.
  - destruct (Hreturns
                [ (at_time 200, call_retry "task-1" (Some "timeout") (Num 5));
                  (at_time 300, call_succeed "task-1") ]) as [s' Hrun].
    + repeat constructor.
    + repeat constructor; vm_compute; discriminate.
    + vm_compute. discriminate.
    + destruct (Hcount
                  [ (at_time 200, call_retry "task-1" (Some "timeout") (Num 5));
                    (at_time 300, call_succeed "task-1") ] s')
        as (t' & Hfind & Hattempts); [repeat constructor | exact Hrun |].
      exists s', t'. repeat split; assumption.
Defined.



Lemma unique_keys_empty : unique_keys [].
Proof. intros w. simpl. lia. Qed.


(** ** Claiming a batch *)

Lemma insert_by_scheduledAt_permutation (t : Task) (l : list Task) :
  Permutation (t :: l) (insert_by_scheduledAt t l).
Proof.
  induction l as [| x l IH]; simpl; [apply Permutation_refl |].
  destruct (scheduledAt t <=? scheduledAt x); [apply Permutation_refl |].
  eapply perm_trans; [apply perm_swap | apply perm_skip, IH].
Qed.

Lemma orderBy_scheduledAt_asc_permutation (l : list Task) :
  Permutation l (orderBy_scheduledAt_asc l).
Proof.
  induction l as [| x l IH]; simpl; [apply perm_nil |].
  eapply perm_trans; [apply perm_skip, IH | apply insert_by_scheduledAt_permutation].
Qed.

Lemma insert_by_scheduledAt_sorted (t : Task) (l : list Task) :
  StronglySorted due_before l ->
  StronglySorted due_before (insert_by_scheduledAt t l).
Proof.
  induction 1 as [| x l Hsorted IH Hx]; simpl.
  - constructor; constructor.
  - destruct (Z.leb_spec (scheduledAt t) (scheduledAt x)) as [Hle | Hgt].
    + constructor; [constructor; assumption |].
      constructor; [exact Hle |].
      eapply Forall_impl; [| exact Hx].
      unfold due_before. intros y Hy. lia.
    + constructor; [exact IH |].
      eapply Permutation_Forall; [apply insert_by_scheduledAt_permutation |].
      constructor; [unfold due_before; lia | exact Hx].
Qed.

Lemma orderBy_scheduledAt_asc_sorted (l : list Task) :
  StronglySorted due_before (orderBy_scheduledAt_asc l).
Proof.
  induction l as [| x l IH]; simpl; [constructor |].
  now apply insert_by_scheduledAt_sorted.
Qed.

Lemma firstn_incl (n : nat) (l : list Task) (x : Task) :
  In x (firstn n l) -> In x l.
Proof.
  revert n. induction l as [| y l IH]; intros [| n]; simpl; try contradiction.
  intros [-> | Hin]; [now left | right; eapply IH; eassumption].
Qed.

Lemma firstn_sorted (n : nat) (l : list Task) :
  StronglySorted due_before l -> StronglySorted due_before (firstn n l).
Proof.
  intros Hsorted. revert n.
  induction Hsorted as [| x l Hsorted IH Hx]; intros [| n]; simpl; try constructor.
  - apply IH.
  - apply Forall_forall. intros y Hy.
    apply firstn_incl in Hy. revert y Hy. now apply Forall_forall.
Qed.

(** The filter of the batch, field by field. *)
Lemma matches_upcoming (t0 : Z) (t : Task) :
  matches (makeWhereUpcomingTasks t0) t = true
  <-> succeededAt t = None /\ scheduledAt t < t0 /\ attempts t < maxAttempts t.
Proof.
  unfold matches, makeWhereUpcomingTasks. simpl.
  rewrite !andb_true_iff, !Z.ltb_lt.
  destruct (succeededAt t); simpl; intuition congruence.
Qed.

(** What a batch is: at most 1000 rows of the table, each unsucceeded, due
    strictly before the time of the call and with attempts left, the oldest
    due first; no such row is left out when there are at most 1000. *)
Lemma getNextBatch_rows (e : Env) (s : Store) :
  fault e = None ->
  exists rows,
    getNextBatch e s = Ok rows
    /\ (List.length rows <= 1000)%nat
    /\ StronglySorted due_before rows
    /\ (forall t, In t rows ->
          In t s /\ succeededAt t = None /\ scheduledAt t < now e
          /\ attempts t < maxAttempts t)
    /\ ((List.length (filter (matches (makeWhereUpcomingTasks (now e))) s) <= 1000)%nat ->
        forall t, In t s -> succeededAt t = None -> scheduledAt t < now e ->
                  attempts t < maxAttempts t -> In t rows).
Proof.
  intros Hfault.
  unfold getNextBatch, db_task_findMany, connect. rewrite Hfault.
  cbn [bind find_where find_orderBy find_take select_where].
  set (upcoming := filter (matches (makeWhereUpcomingTasks (now e))) s).
  eexists. split; [reflexivity |].
  split; [apply firstn_le_length |].
  split; [apply firstn_sorted, orderBy_scheduledAt_asc_sorted |].
  split.
  - intros t Hin. apply firstn_incl in Hin.
    apply (Permutation_in _ (Permutation_sym
             (orderBy_scheduledAt_asc_permutation upcoming))) in Hin.
    apply filter_In in Hin as [Hin Hmatch].
    apply matches_upcoming in Hmatch. tauto.
  - intros Hfew t Hin Hpending Hdue Hleft.
    rewrite firstn_all2.
    + apply (Permutation_in _ (orderBy_scheduledAt_asc_permutation upcoming)).
      apply filter_In. split; [exact Hin |].
      apply matches_upcoming. tauto.
    + rewrite <- (Permutation_length (orderBy_scheduledAt_asc_permutation upcoming)).
      exact Hfew.
Qed.

(** ** The classification of the data model is a partition *)

Lemma spec_classification_partition (t0 : Z) (t : Task) :
  Z.b2z (spec_not_yet_due t0 t) + Z.b2z (spec_upcoming t0 t)
  + Z.b2z (spec_failed t) + Z.b2z (spec_succeeded t) = 1.
Proof.
  unfold spec_not_yet_due, spec_upcoming, spec_failed, spec_succeeded.
  destruct (succeededAt t); simpl;
    destruct (Z.ltb_spec t0 (scheduledAt t));
    destruct (Z.leb_spec (scheduledAt t) t0);
    destruct (Z.ltb_spec (attempts t) (maxAttempts t));
    destruct (Z.leb_spec (maxAttempts t) (attempts t)); simpl; lia.
Qed.

(** ** Where the repository departs from the data model *)

Lemma cleanup_returns_the_table (e : Env) (s : Store) : cleanup e s = Ok (tt, s).
Proof. reflexivity. Qed.

(** C1 (violated by the code): [cleanup] deletes nothing.  The succeeded
    task of [third_time_lucky] and the failed task of [exhausted] are both
    still in the table after the call. *)
Theorem cleanup_deletes_no_terminal_task :
  Forall (fun t => spec_succeeded t = true) third_time_lucky
  /\ Forall (fun t => spec_failed t = true) exhausted
  /\ cleanup (at_time 1000) third_time_lucky = Ok (tt, third_time_lucky)
  /\ cleanup (at_time 1000) exhausted = Ok (tt, exhausted)
  /\ count (at_time 1000) third_time_lucky = Ok 1
  /\ count (at_time 1000) exhausted = Ok 1.
Proof.
  repeat split; try reflexivity; vm_compute; repeat constructor.
Qed.

(** C2 (violated by the code): [getFailed] and [countFailed] select the
    tasks with [attempts] equal to [maxAttempts], whatever [succeededAt] is.
    The task that succeeded at its third and last attempt is counted as
    failed although the predicate of the data model rejects it, and the
    task with 4 attempts out of 3 is not counted although the predicate
    accepts it. *)
Theorem countFailed_departs_from_failed_predicate :
  (countFailed (at_time 1000) third_time_lucky = Ok 1
   /\ getFailed (at_time 1000) third_time_lucky = Ok third_time_lucky
   /\ Forall (fun t => spec_failed t = false) third_time_lucky)
  /\ (countFailed (at_time 1000) overrun = Ok 0
      /\ getFailed (at_time 1000) overrun = Ok []
      /\ Forall (fun t => spec_failed t = true) overrun
      /\ count (at_time 1000) overrun = Ok 1).
Proof.
  repeat split; try reflexivity; vm_compute; repeat constructor.
Qed.

(** C3 (violated by the code): the filter of [getNextBatch] compares
    [scheduledAt] with the current time by [lt].  The task created at time
    100 and due at time 100 is upcoming by the predicate of the data model,
    and the batch claimed at time 100 is empty; the batch claimed one
    millisecond later holds the task. *)
Theorem getNextBatch_misses_task_due_now :
  Forall (fun t => scheduledAt t = 100 /\ spec_upcoming 100 t = true) just_created
  /\ getNextBatch (at_time 100) just_created = Ok []
  /\ getNextBatch (at_time 101) just_created = Ok just_created
  /\ count (at_time 100) just_created = Ok 1.
Proof.
  repeat split; try reflexivity; vm_compute; repeat constructor.
Qed.

(** C4 (violated by the code): the succeeded set and the failed set of the
    repository overlap.  The task whose third [succeed] call raised
    [attempts] to [maxAttempts] is returned by [getSucceeded] and by
    [getFailed]; and the task due at the very time of the query is in none
    of the three sets although it is not in the future. *)
Theorem succeeded_and_failed_sets_overlap :
  (Forall (fun t => matches whereSucceeded t = true
                    /\ matches whereMaxAttemptsReached t = true) third_time_lucky
   /\ getSucceeded (at_time 1000) third_time_lucky = Ok third_time_lucky
   /\ getFailed (at_time 1000) third_time_lucky = Ok third_time_lucky
   /\ count (at_time 1000) third_time_lucky = Ok 1)
  /\ Forall (fun t => matches (makeWhereUpcomingTasks 100) t = false
                      /\ matches whereSucceeded t = false
                      /\ matches whereMaxAttemptsReached t = false
                      /\ (100 <? scheduledAt t) = false) just_created.
Proof.
  repeat split; try reflexivity; vm_compute; repeat constructor.
Qed.

(** ** The supersession check *)

Section ScanWorkflowBodyFacts.

Variable jsonb_workflowStepId : string -> option (option Z).
Variable scanWorkflowBody_createdAt : string -> option (option string).
Variable Date_parse : string -> option Z.

Lemma pending_scan_test (t : Task) :
  String.eqb (type t) "scanWorkflowBody" && is_null_date (succeededAt t) = true
  <-> pending_scan t.
Proof.
  unfold pending_scan. rewrite andb_true_iff, String.eqb_eq.
  destruct (succeededAt t); simpl; intuition congruence.
Qed.

Lemma select_scan_payloads_throws (n : Z) (s : Store) (t : Task) :
  In t s ->
  pending_scan t ->
  jsonb_workflowStepId (payload t) = None ->
  select_scan_payloads jsonb_workflowStepId n s = Throw raw_query_failed.
Proof.
  intros Hin Hpending Hcast.
  induction s as [| x s IH]; [contradiction |].
  simpl.
  destruct (String.eqb (type x) "scanWorkflowBody" && is_null_date (succeededAt x))
    eqn:Htest.
  - destruct (jsonb_workflowStepId (payload x)) as [v |] eqn:Hx; [| reflexivity].
    destruct Hin as [-> | Hin]; [congruence |].
    now rewrite (IH Hin).
  - destruct Hin as [-> | Hin]; [| exact (IH Hin)].
    apply pending_scan_test in Hpending. congruence.
Qed.

Lemma select_scan_payloads_ok (n : Z) (s : Store) :
  (forall t, In t s -> pending_scan t -> jsonb_workflowStepId (payload t) <> None) ->
  exists rows,
    select_scan_payloads jsonb_workflowStepId n s = Ok rows
    /\ forall p, In p rows <->
                 exists t, In t s /\ pending_scan t
                           /\ jsonb_workflowStepId (payload t) = Some (Some n)
                           /\ payload t = p.
Proof.
  induction s as [| x s IH]; intros Hcasts.
  - exists []. split; [reflexivity |].
    intros p. split; [contradiction | intros (t & [] & _)].
  - destruct IH as (rows & Hrows & Hspec).
    { intros t Hin. apply Hcasts. now right. }
    simpl. rewrite Hrows.
    destruct (String.eqb (type x) "scanWorkflowBody" && is_null_date (succeededAt x))
      eqn:Htest.
    + assert (Hpending : pending_scan x) by now apply pending_scan_test.
      destruct (jsonb_workflowStepId (payload x)) as [v |] eqn:Hx;
        [| now destruct (Hcasts x (or_introl eq_refl) Hpending)].
      cbn [bind].
      destruct (same_int v n) eqn:Hsame.
      * exists (payload x :: rows). split; [reflexivity |].
        assert (Hv : v = Some n).
        { destruct v as [m |]; simpl in Hsame; [| discriminate].
          apply Z.eqb_eq in Hsame. now subst m. }
        subst v. intros p. simpl. rewrite Hspec. split.
        -- intros [<- | (t & Hin & Ht)].
           ++ exists x. tauto.
           ++ exists t. tauto.
        -- intros (t & [<- | Hin] & Ht); [left; tauto |].
           right. exists t. tauto.
      * exists rows. split; [reflexivity |].
        intros p. rewrite Hspec. split.
        -- intros (t & Hin & Ht). exists t. simpl. tauto.
        -- intros (t & [<- | Hin] & Ht & Hstep & Hp).
           ++ rewrite Hx in Hstep. injection Hstep as ->.
              simpl in Hsame. rewrite Z.eqb_refl in Hsame. discriminate.
           ++ exists t. tauto.
    + exists rows. split; [reflexivity |].
      intros p. rewrite Hspec. split.
      * intros (t & Hin & Ht). exists t. simpl. tauto.
      * intros (t & [<- | Hin] & Ht & Hrest).
        -- apply pending_scan_test in Ht. congruence.
        -- exists t. tauto.
Qed.

Lemma is_newer_true (createdAt task_payload : string) :
  is_newer scanWorkflowBody_createdAt Date_parse createdAt task_payload = true
  <-> records_later scanWorkflowBody_createdAt Date_parse createdAt task_payload.
Proof.
  unfold is_newer, records_later, date_gt. split.
  - destruct (scanWorkflowBody_createdAt task_payload) as [[recorded |] |]
      eqn:Hparsed; try discriminate.
    destruct (String.eqb_spec recorded EmptyString) as [| Hne]; [discriminate |].
    destruct (Date_parse recorded) as [x |] eqn:Hx; [| discriminate].
    destruct (Date_parse createdAt) as [y |] eqn:Hy; [| discriminate].
    intros Hlt. apply Z.ltb_lt in Hlt.
    exists recorded, x, y.
    split; [reflexivity |]. split; [exact Hne |].
    split; [exact Hx |]. split; [reflexivity | exact Hlt].
  - intros (recorded & x & y & -> & Hne & -> & -> & Hlt).
    destruct (String.eqb_spec recorded EmptyString) as [| _]; [contradiction |].
    now apply Z.ltb_lt.
Qed.

(** As long as the step id is an [Int] and no payload of a pending scan
    task makes a cast raise, the check answers, and answers true exactly
    when a pending scan task of the step records a later creation time; a
    payload the schema rejects records none. *)
Lemma hasNewerScanTaskForStepId_answer (e : Env) (n : Z) (createdAt : string)
  (s : Store) :
  fault e = None ->
  - INT_MAX - 1 <= n <= INT_MAX ->
  (forall t, In t s -> pending_scan t -> jsonb_workflowStepId (payload t) <> None) ->
  exists answer,
    hasNewerScanTaskForStepId jsonb_workflowStepId scanWorkflowBody_createdAt
      Date_parse e n createdAt s = Ok answer
    /\ (answer = true <->
        exists t, In t s /\ pending_scan t
                  /\ jsonb_workflowStepId (payload t) = Some (Some n)
                  /\ records_later scanWorkflowBody_createdAt Date_parse createdAt (payload t)).
Proof.
  intros Hfault Hint Hcasts.
  destruct (select_scan_payloads_ok n s Hcasts) as (rows & Hrows & Hspec).
  unfold hasNewerScanTaskForStepId, connect. rewrite Hfault. cbn [bind].
  rewrite (proj2 (in_Int_range_ok n) Hint), Hrows. cbn [bind].
  eexists. split; [reflexivity |].
  rewrite existsb_exists. split.
  - intros (p & Hin & Hnewer).
    apply Hspec in Hin as (t & Hin & Hpending & Hstep & <-).
    exists t. repeat split; try assumption; try apply Hpending.
    now apply is_newer_true.
  - intros (t & Hin & Hpending & Hstep & Hlater).
    exists (payload t). split.
    + apply Hspec. exists t. tauto.
    + now apply is_newer_true.
Qed.

(** C9 (violated by the code): the payloads are first parsed by the
    database, in the WHERE clause of the raw query, outside the [try] of
    the callback.  A pending scan task whose payload the cast to [jsonb]
    rejects is not excluded: the check throws. *)
Theorem hasNewerScanTaskForStepId_throws_on_unparseable_payload
  (e : Env) (n : Z) (createdAt : string) (s : Store) (t : Task) :
  fault e = None ->
  In t s ->
  type t = "scanWorkflowBody" ->
  succeededAt t = None ->
  jsonb_workflowStepId (payload t) = None ->
  hasNewerScanTaskForStepId jsonb_workflowStepId scanWorkflowBody_createdAt
    Date_parse e n createdAt s = Throw raw_query_failed.
Proof.
  intros Hfault Hin Hty Hpending Hcast.
  unfold hasNewerScanTaskForStepId, connect. rewrite Hfault. cbn [bind].
  destruct (in_Int_range n); [| reflexivity].
  rewrite (select_scan_payloads_throws n s t Hin (conj Hty Hpending) Hcast).
  reflexivity.
Qed.

End ScanWorkflowBodyFacts.

Lemma hasNewerScanTaskForStepId_throws_on_unparseable_payload_witness :
  hasNewerScanTaskForStepId sample_jsonb_workflowStepId sample_createdAt
    sample_Date_parse (at_time 1000) 7 "2024-05-01"
    [scan_task "task-1" payload_of_May_2; scan_task "task-2" "not json"]
  = Throw raw_query_failed
  /\ hasNewerScanTaskForStepId sample_jsonb_workflowStepId sample_createdAt
       sample_Date_parse (at_time 1000) 7 "2024-05-01"
       [scan_task "task-1" payload_of_May_2]
     = Ok true.
Proof.
  split; [| reflexivity].
  apply (hasNewerScanTaskForStepId_throws_on_unparseable_payload
           sample_jsonb_workflowStepId sample_createdAt sample_Date_parse
           (at_time 1000) 7 "2024-05-01"
           [scan_task "task-1" payload_of_May_2; scan_task "task-2" "not json"]
           (scan_task "task-2" "not json")).
  - reflexivity.
  - right. left. reflexivity.
  - reflexivity.
  - reflexivity.
  - reflexivity.
Defined.

(** The check on the sample payloads: a later creation time supersedes, an
    equal or earlier one does not; a payload the schema rejects, a payload
    without [createdAt] and a candidate that is no date count for nothing. *)
Lemma supersession_examples :
  let check := hasNewerScanTaskForStepId sample_jsonb_workflowStepId
                 sample_createdAt sample_Date_parse (at_time 1000) in
  check 7 "2024-05-01" [scan_task "task-1" payload_of_May_2] = Ok true
  /\ check 7 "2024-05-02" [scan_task "task-1" payload_of_May_2] = Ok false
  /\ check 7 "2024-05-03" [scan_task "task-1" payload_of_May_2] = Ok false
  /\ check 7 "yesterday" [scan_task "task-1" payload_of_May_2] = Ok false
  /\ check 8 "2024-05-01" [scan_task "task-1" payload_of_May_2] = Ok false
  /\ check 7 "2024-05-01" [scan_task "task-1" payload_without_userId] = Ok false
  /\ check 7 "2024-05-01" [scan_task "task-1" payload_without_createdAt] = Ok false.
Proof. repeat split. Qed.

(** * Further properties of the repository *)

(** ** Creating a task *)

Lemma findUnique_none (w : TaskWhereUniqueInput) (s : Store) :
  findUnique w s = None <-> existsb (unique_match w) s = false.
Proof.
  unfold findUnique. induction s as [| x s IH]; simpl; [tauto |].
  destruct (unique_match w x); simpl; [split; discriminate | exact IH].
Qed.

Lemma findUnique_insert_last (w : TaskWhereUniqueInput) (s : Store) (t : Task) :
  findUnique w s = None ->
  unique_match w t = true ->
  findUnique w (s ++ [t]) = Some t.
Proof.
  unfold findUnique. intros Hnone Ht.
  induction s as [| x s IH]; simpl in *; [now rewrite Ht |].
  destruct (unique_match w x); [discriminate | auto].
Qed.

Lemma remove_row_insert_last (w : TaskWhereUniqueInput) (s : Store) (t : Task) :
  findUnique w s = None ->
  unique_match w t = true ->
  remove_row w (s ++ [t]) = s.
Proof.
  unfold findUnique. intros Hnone Ht.
  induction s as [| x s IH]; simpl in *; [now rewrite Ht |].
  destruct (unique_match w x); [discriminate |].
  now rewrite IH.
Qed.

Lemma keys_free_no_violation (d : Z) (e : Env) (ty p : string)
  (options : CreateOptions) (s : Store) :
  keys_free e ty options s ->
  violates_unique (new_row d e (create_input ty p options)) s = false.
Proof.
  intros [Hid Href]. unfold violates_unique. simpl.
  apply orb_false_iff. split; [now apply findUnique_none |].
  destruct (opt_referenceUid options) as [ref |]; [| reflexivity].
  apply findUnique_none. now apply Href.
Qed.

Lemma options_fit_accepted (ty p : string) (options : CreateOptions) :
  options_fit options -> accepted_create (create_input ty p options) = true.
Proof.
  intros [Hdue Hallowed]. unfold accepted_create. simpl.
  apply andb_true_iff. split.
  - destruct (opt_scheduledAt options) as [due |]; [| reflexivity].
    apply in_DateTime_range_ok. now apply Hdue.
  - destruct (opt_maxAttempts options) as [allowed |]; [| reflexivity].
    apply in_Int_range_ok. now apply Hallowed.
Qed.

(** X1: a [create] that the database does not fail, whose options fit their
    columns (a [scheduledAt] of the years 1 to 9999, a [maxAttempts] in the
    range of [Int]) and whose keys are free, returns the new id and appends
    one pending task: zero attempts, not succeeded, no error recorded, with
    the type, payload and reference given; the task is found under its id,
    the table has one more row, and every task that was found before is
    found unchanged. *)
Theorem create_inserts_a_pending_task (d : Z) (e : Env) (ty p : string)
  (options : CreateOptions) (s : Store) :
  fault e = None ->
  options_fit options ->
  keys_free e ty options s ->
  exists t s',
    create d e ty p options s = Ok (uuid e, s')
    /\ findUnique (by_id (uuid e)) s' = Some t
    /\ (type t = ty /\ payload t = p /\ referenceUid t = opt_referenceUid options)
    /\ (attempts t = 0 /\ succeededAt t = None /\ lastError t = None
        /\ lastFailedAttemptAt t = None)
    /\ List.length s' = S (List.length s)
    /\ forall w x, findUnique w s = Some x -> findUnique w s' = Some x.
Proof.
  intros Hfault Hfit Hfree.
  pose proof (keys_free_no_violation d e ty p options s Hfree) as Hok.
  exists (new_row d e (create_input ty p options)).
  exists (s ++ [new_row d e (create_input ty p options)]).
  split; [apply create_ok; auto using options_fit_accepted |].
  split; [apply findUnique_insert_last;
          [apply Hfree | simpl; apply String.eqb_refl] |].
  split; [repeat split |]. split; [repeat split |].
  split; [rewrite length_app; simpl; lia |].
  intros w x Hfind. now apply findUnique_insert.
Qed.

Lemma create_inserts_a_pending_task_witness :
  exists t s',
    create 3 (mkEnv 200 None "task-2") "sendEmail" "{}"
      {| opt_scheduledAt := Some 500; opt_maxAttempts := Some 5;
         opt_referenceUid := Some "booking-8" |} [fresh_task] = Ok ("task-2", s')
    /\ findUnique (by_id "task-2") s' = Some t
    /\ attempts t = 0
    /\ List.length s' = 2%nat
    /\ findUnique (by_id "task-1") s' = Some fresh_task.
Proof.
  destruct (create_inserts_a_pending_task 3 (mkEnv 200 None "task-2")
              "sendEmail" "{}"
              {| opt_scheduledAt := Some 500; opt_maxAttempts := Some 5;
                 opt_referenceUid := Some "booking-8" |} [fresh_task])
    as (t & s' & Hret & Hfind & _ & (Hattempts & _) & Hlen & Hkept).
  - reflexivity.
  - split.
    + intros due Hdue. injection Hdue as <-. split; vm_compute; discriminate.
    + intros allowed Hallowed. injection Hallowed as <-.
      split; vm_compute; discriminate.
  - split; [reflexivity |].
    intros ref Href. injection Href as <-. reflexivity.
  - exists t, s'. repeat split; try assumption.
    apply Hkept. reflexivity.
Defined.

(** X2: a [create] that the database does not fail and whose options fit
    their columns throws the unique-constraint error P2002, and inserts
    nothing, when the id drawn is taken or when a task with the same
    referenceUid and type is in the table. *)
Theorem create_rejects_taken_keys (d : Z) (e : Env) (ty p : string)
  (options : CreateOptions) (s : Store) (x : Task) :
  fault e = None ->
  options_fit options ->
  findUnique (by_id (uuid e)) s = Some x
  \/ (exists ref, opt_referenceUid options = Some ref
                  /\ findUnique (by_referenceUid_type ref ty) s = Some x) ->
  create d e ty p options s = Throw unique_constraint_failed
  /\ after d e (call_create ty p options) s = s.
Proof.
  intros Hfault Hfit Htaken.
  assert (Hthrow : create d e ty p options s = Throw unique_constraint_failed).
  { unfold create, db_task_create, connect. fold (create_input ty p options).
    rewrite Hfault. cbn [bind].
    rewrite (options_fit_accepted ty p options Hfit). cbn [negb]. cbv zeta.
    assert (Hviolates :
              violates_unique (new_row d e (create_input ty p options)) s = true).
    { unfold violates_unique. simpl. apply orb_true_iff.
      destruct Htaken as [Hid | (ref & Href & Hpair)].
      - left. destruct (existsb (unique_match (by_id (uuid e))) s) eqn:Hex;
          [reflexivity |].
        apply findUnique_none in Hex. congruence.
      - right. rewrite Href.
        destruct (existsb (unique_match (by_referenceUid_type ref ty)) s) eqn:Hex;
          [reflexivity |].
        apply findUnique_none in Hex. congruence. }
    now rewrite Hviolates. }
  split; [exact Hthrow |].
  unfold after, perform, store_of. now rewrite Hthrow.
Qed.

Lemma create_rejects_taken_keys_witness :
  create 3 (mkEnv 200 None "task-2") "sendEmail" "{}"
    {| opt_scheduledAt := None; opt_maxAttempts := Some 5;
       opt_referenceUid := Some "booking-7" |} [fresh_task]
  = Throw unique_constraint_failed.
Proof.
  apply (create_rejects_taken_keys 3 (mkEnv 200 None "task-2") "sendEmail" "{}"
           {| opt_scheduledAt := None; opt_maxAttempts := Some 5;
              opt_referenceUid := Some "booking-7" |} [fresh_task] fresh_task).
  - reflexivity.
  - split.
    + intros due Hdue. discriminate.
    + intros allowed Hallowed. injection Hallowed as <-.
      split; vm_compute; discriminate.
  - right. exists "booking-7". split; reflexivity.
Defined.

(** X3: cancelling what was just created gives back the table as it was,
    by id with [cancel] and by reference with [cancelWithReference], which
    returns the id [create] returned; the create returns when the database
    does not fail, the options fit their columns and the keys are free. *)
Theorem create_then_cancel_restores_table (d : Z) (e e' : Env) (ty p : string)
  (options : CreateOptions) (s : Store) :
  fault e = None ->
  fault e' = None ->
  options_fit options ->
  keys_free e ty options s ->
  exists t s',
    create d e ty p options s = Ok (uuid e, s')
    /\ cancel e' (uuid e) s' = Ok (t, s)
    /\ forall ref, opt_referenceUid options = Some ref ->
                   cancelWithReference e' ref ty s' = Ok (Some (uuid e), s).
Proof.
  intros Hfault Hfault' Hfit Hfree.
  pose proof (keys_free_no_violation d e ty p options s Hfree) as Hok.
  destruct Hfree as [Hid Href].
  set (t := new_row d e (create_input ty p options)) in *.
  assert (Hbyid : unique_match (by_id (uuid e)) t = true)
    by (simpl; apply String.eqb_refl).
  exists t, (s ++ [t]). split; [| split].
  - apply create_ok; auto using options_fit_accepted.
  - unfold cancel.
    rewrite (db_task_delete_ok e' (by_id (uuid e)) (s ++ [t]) t Hfault'
               (findUnique_insert_last _ s t Hid Hbyid)).
    now rewrite (remove_row_insert_last _ s t Hid Hbyid).
  - intros ref Hgiven.
    assert (Hmatch : unique_match (by_referenceUid_type ref ty) t = true).
    { simpl. rewrite Hgiven. now rewrite !String.eqb_refl. }
    unfold cancelWithReference.
    rewrite (db_task_delete_ok e' (by_referenceUid_type ref ty) (s ++ [t]) t Hfault'
               (findUnique_insert_last _ s t (Href ref Hgiven) Hmatch)).
    cbn [bind try_catch fst snd].
    now rewrite (remove_row_insert_last _ s t (Href ref Hgiven) Hmatch).
Qed.

Lemma create_then_cancel_restores_table_witness :
  exists s',
    create 3 (mkEnv 200 None "task-2") "sendEmail" "{}"
      {| opt_scheduledAt := None; opt_maxAttempts := Some 5;
         opt_referenceUid := Some "booking-8" |} [fresh_task] = Ok ("task-2", s')
    /\ cancelWithReference (at_time 300) "booking-8" "sendEmail" s'
       = Ok (Some "task-2", [fresh_task]).
Proof.
  destruct (create_then_cancel_restores_table 3 (mkEnv 200 None "task-2")
              (at_time 300) "sendEmail" "{}"
              {| opt_scheduledAt := None; opt_maxAttempts := Some 5;
                 opt_referenceUid := Some "booking-8" |} [fresh_task])
    as (t & s' & Hcreate & _ & Hcancel).
  - reflexivity.
  - reflexivity.
  - split.
    + intros due Hdue. discriminate.
    + intros allowed Hallowed. injection Hallowed as <-.
      split; vm_compute; discriminate.
  - split; [reflexivity |].
    intros ref Href. injection Href as <-. reflexivity.
  - exists s'. split; [exact Hcreate |]. now apply Hcancel.
Defined.

(** ** Cancelling a task *)

Lemma unique_In_eq (w : TaskWhereUniqueInput) (s : Store) (a b : Task) :
  unique_keys s ->
  In a s -> In b s ->
  unique_match w a = true -> unique_match w b = true ->
  a = b.
Proof.
  intros Hu Ha Hb Hwa Hwb. specialize (Hu w).
  assert (Hfa : In a (filter (unique_match w) s)) by (apply filter_In; tauto).
  assert (Hfb : In b (filter (unique_match w) s)) by (apply filter_In; tauto).
  destruct (filter (unique_match w) s) as [| x [| y l]]; simpl in *.
  - contradiction.
  - destruct Hfa as [<- | []]. destruct Hfb as [<- | []]. reflexivity.
  - lia.
Qed.

Lemma unique_found (w : TaskWhereUniqueInput) (s : Store) (a : Task) :
  unique_keys s -> In a s -> unique_match w a = true -> findUnique w s = Some a.
Proof.
  intros Hu Ha Hwa.
  destruct (findUnique w s) as [x |] eqn:Hfind.
  - apply findUnique_matches in Hfind as [Hwx Hx].
    f_equal. eapply unique_In_eq; eassumption.
  - unfold findUnique in Hfind.
    pose proof (find_none _ _ Hfind a Ha) as Hno. congruence.
Qed.

Lemma findUnique_remove_other (w v : TaskWhereUniqueInput) (s : Store) :
  (forall x, unique_match w x = true -> unique_match v x = false) ->
  findUnique v (remove_row w s) = findUnique v s.
Proof.
  unfold findUnique. intros Hsep.
  induction s as [| x s IH]; simpl; [reflexivity |].
  destruct (unique_match w x) eqn:Hw.
  - now rewrite (Hsep x Hw).
  - simpl. now rewrite IH.
Qed.

Lemma other_id (i j : string) (x : Task) :
  j <> i -> unique_match (by_id i) x = true -> unique_match (by_id j) x = false.
Proof.
  simpl. intros Hne Hi. apply String.eqb_eq in Hi.
  apply String.eqb_neq. congruence.
Qed.

(** X4: [cancel] on an existing task returns it and removes exactly it: the
    other rows stay, no task is found under the id any more, every other id
    finds what it found before, and a second [cancel] of the id throws the
    record-not-found error. *)
Theorem cancel_removes_exactly_the_task (e : Env) (taskId : string) (s : Store)
  (t : Task) :
  unique_keys s ->
  fault e = None ->
  findUnique (by_id taskId) s = Some t ->
  exists s',
    cancel e taskId s = Ok (t, s')
    /\ Permutation s (t :: s')
    /\ findUnique (by_id taskId) s' = None
    /\ (forall other, other <> taskId ->
          findUnique (by_id other) s' = findUnique (by_id other) s)
    /\ (forall e', fault e' = None -> cancel e' taskId s' = Throw record_not_found).
Proof.
  intros Hu Hfault Hfind.
  exists (remove_row (by_id taskId) s).
  split; [now apply db_task_delete_ok |].
  split; [now apply remove_row_permutation |].
  assert (Hgone : findUnique (by_id taskId) (remove_row (by_id taskId) s) = None)
    by now apply findUnique_remove_same.
  split; [exact Hgone |].
  split.
  - intros other Hne. apply findUnique_remove_other.
    intros x. now apply other_id.
  - intros e' Hfault'. now apply db_task_delete_absent.
Qed.

Lemma cancel_removes_exactly_the_task_witness :
  cancel (at_time 500) "task-1" [fresh_task] = Ok (fresh_task, [])
  /\ cancel (at_time 600) "task-1" [] = Throw record_not_found.
Proof.
  destruct (cancel_removes_exactly_the_task (at_time 500) "task-1" [fresh_task]
              fresh_task)
    as (s' & Hret & Hperm & _ & _ & Hagain).
  - apply unique_keys_singleton.
  - reflexivity.
  - reflexivity.
  - assert (Hs' : s' = []).
    { apply Permutation_length in Hperm. simpl in Hperm.
      destruct s'; [reflexivity | discriminate]. }
    subst s'. split; [exact Hret |]. now apply Hagain.
Defined.

(** X5: [cancelWithReference] is idempotent: after a call that the database
    did not fail, whether it deleted a task or found none, a second call
    with the same reference and type returns null and leaves the table as
    it is. *)
Theorem cancelWithReference_is_idempotent (e e' : Env) (referenceUid ty : string)
  (s s' : Store) (deleted : option string) :
  unique_keys s ->
  fault e = None ->
  fault e' = None ->
  cancelWithReference e referenceUid ty s = Ok (deleted, s') ->
  cancelWithReference e' referenceUid ty s' = Ok (None, s').
Proof.
  intros Hu Hfault Hfault' Hfirst.
  assert (Hgone : findUnique (by_referenceUid_type referenceUid ty) s' = None).
  { unfold cancelWithReference in Hfirst.
    destruct (findUnique (by_referenceUid_type referenceUid ty) s) as [t |] eqn:Hfind.
    - rewrite (db_task_delete_ok e _ s t Hfault Hfind) in Hfirst.
      cbn [bind try_catch fst snd] in Hfirst. injection Hfirst as _ <-.
      now apply findUnique_remove_same.
    - rewrite (db_task_delete_absent e _ s Hfault Hfind) in Hfirst.
      cbn [bind try_catch record_not_found] in Hfirst.
      change (String.eqb "P2025" "P2025") with true in Hfirst.
      injection Hfirst as _ <-. exact Hfind. }
  unfold cancelWithReference.
  now rewrite (db_task_delete_absent e' _ s' Hfault' Hgone).
Qed.

Lemma cancelWithReference_is_idempotent_witness :
  cancelWithReference (at_time 500) "booking-7" "sendEmail" [fresh_task]
  = Ok (Some "task-1", [])
  /\ cancelWithReference (at_time 600) "booking-7" "sendEmail" [] = Ok (None, []).
Proof.
  split; [reflexivity |].
  apply (cancelWithReference_is_idempotent (at_time 500) (at_time 600)
           "booking-7" "sendEmail" [fresh_task] [] (Some "task-1")).
  - apply unique_keys_singleton.
  - reflexivity.
  - reflexivity.
  - reflexivity.
Defined.

(** ** Every table the repository builds has unique keys *)

Lemma unique_keys_NoDup (s : Store) : unique_keys s -> NoDup (map id s).
Proof.
  induction s as [| x s IH]; intros Hu; simpl; constructor.
  - intros Hin. apply in_map_iff in Hin as (y & Hid & Hy).
    pose proof (unique_keys_head (by_id (id x)) x s Hu (String.eqb_refl _)) as Hnone.
    unfold findUnique in Hnone.
    pose proof (find_none _ _ Hnone y Hy) as Hno.
    simpl in Hno. rewrite Hid, String.eqb_refl in Hno. discriminate.
  - apply IH. eapply unique_keys_tail; eassumption.
Qed.

(** X6: whatever calls are made, starting from the empty table, no two
    rows have the same id, and no two rows with a referenceUid have the same
    referenceUid and type. *)
Theorem reachable_tables_have_unique_keys (d : Z) (calls : list (Env * Call)) :
  NoDup (map id (run d calls []))
  /\ forall a b ref,
       In a (run d calls []) -> In b (run d calls []) ->
       referenceUid a = Some ref -> referenceUid b = Some ref ->
       type a = type b ->
       a = b.
Proof.
  pose proof (unique_keys_run d calls [] unique_keys_empty) as Hu.
  split; [now apply unique_keys_NoDup |].
  intros a b ref Ha Hb Hra Hrb Hty.
  apply (unique_In_eq (by_referenceUid_type ref (type a)) _ a b Hu Ha Hb); simpl.
  - now rewrite Hra, !String.eqb_refl.
  - now rewrite Hrb, <- Hty, !String.eqb_refl.
Qed.

(** ** Batches and gauges *)




Lemma filter_disjoint_length (p q : Task -> bool) (l : list Task) :
  (forall x, p x = true -> q x = false) ->
  (List.length (filter p l) + List.length (filter q l) <= List.length l)%nat.
Proof.
  intros Hpq. induction l as [| x l IH]; simpl; [lia |].
  destruct (p x) eqn:Hp.
  - rewrite (Hpq x Hp). simpl. lia.
  - destruct (q x); simpl; lia.
Qed.

Lemma upcoming_not_succeeded (t0 : Z) (t : Task) :
  matches (makeWhereUpcomingTasks t0) t = true -> matches whereSucceeded t = false.
Proof.
  intros H. apply matches_upcoming in H as (Hnull & _).
  unfold matches, whereSucceeded. simpl. now rewrite Hnull.
Qed.

Lemma upcoming_not_failed (t0 : Z) (t : Task) :
  matches (makeWhereUpcomingTasks t0) t = true ->
  matches whereMaxAttemptsReached t = false.
Proof.
  intros H. apply matches_upcoming in H as (_ & _ & Hleft).
  unfold matches, whereMaxAttemptsReached. simpl.
  apply Z.eqb_neq. lia.
Qed.

(** X8: the upcoming tasks are apart from the succeeded ones and from the
    ones [getFailed] lists: no task of a batch is returned by [getSucceeded]
    or by [getFailed], and the gauges satisfy countUpcoming + countSucceeded
    <= count and countUpcoming + countFailed <= count. *)
Theorem upcoming_is_apart_from_terminal_sets (e : Env) (s : Store) :
  fault e = None ->
  exists rows succeeded failed,
    getNextBatch e s = Ok rows
    /\ getSucceeded e s = Ok succeeded
    /\ getFailed e s = Ok failed
    /\ (forall t, In t rows -> ~ In t succeeded /\ ~ In t failed)
    /\ exists upcoming total,
         countUpcoming e s = Ok upcoming
         /\ count e s = Ok total
         /\ countSucceeded e s = Ok (Z.of_nat (List.length succeeded))
         /\ countFailed e s = Ok (Z.of_nat (List.length failed))
         /\ upcoming + Z.of_nat (List.length succeeded) <= total
         /\ upcoming + Z.of_nat (List.length failed) <= total.
Proof.
  intros Hfault.
  destruct (getNextBatch_rows e s Hfault) as (rows & Hret & _ & _ & Hsound & _).
  exists rows. eexists. eexists.
  split; [exact Hret |].
  split; [unfold getSucceeded, db_task_findMany, connect; rewrite Hfault;
          reflexivity |].
  split; [unfold getFailed, db_task_findMany, connect; rewrite Hfault;
          reflexivity |].
  cbn [find_where find_orderBy find_take select_where].
  split.
  - intros t Hin. apply Hsound in Hin as (Hs & Hnull & Hdue & Hleft).
    assert (Hup : matches (makeWhereUpcomingTasks (now e)) t = true)
      by (apply matches_upcoming; tauto).
    split; intros Hother; apply filter_In in Hother as [_ Hother].
    + rewrite (upcoming_not_succeeded _ _ Hup) in Hother. discriminate.
    + rewrite (upcoming_not_failed _ _ Hup) in Hother. discriminate.
  - eexists. eexists.
    unfold countUpcoming, count, countSucceeded, countFailed, db_task_count, connect.
    rewrite Hfault. cbn [bind select_where].
    split; [reflexivity |]. split; [reflexivity |].
    split; [reflexivity |]. split; [reflexivity |].
    pose proof (filter_disjoint_length (matches (makeWhereUpcomingTasks (now e)))
                  (matches whereSucceeded) s
                  (upcoming_not_succeeded (now e))) as Hsucc.
    pose proof (filter_disjoint_length (matches (makeWhereUpcomingTasks (now e)))
                  (matches whereMaxAttemptsReached) s
                  (upcoming_not_failed (now e))) as Hfail.
    split; lia.
Qed.

Lemma upcoming_is_apart_from_terminal_sets_witness :
  exists rows succeeded failed,
    getNextBatch (at_time 1000) third_time_lucky = Ok rows
    /\ getSucceeded (at_time 1000) third_time_lucky = Ok succeeded
    /\ getFailed (at_time 1000) third_time_lucky = Ok failed
    /\ forall t, In t rows -> ~ In t succeeded /\ ~ In t failed.
Proof.
  destruct (upcoming_is_apart_from_terminal_sets (at_time 1000) third_time_lucky)
    as (rows & succeeded & failed & Hrows & Hsucc & Hfail & Hapart & _).
  - reflexivity.
  - exists rows, succeeded, failed. repeat split; try assumption; now apply Hapart.
Defined.

(** ** The life of a task: claimed, retried, succeeded *)

(** A row of a batch that carries the id of a task is that task, and passes
    the filter of the batch. *)
Lemma batch_row_of_id (e : Env) (taskId : string) (s : Store) (t r : Task)
  (rows : list Task) :
  unique_keys s ->
  findUnique (by_id taskId) s = Some t ->
  getNextBatch e s = Ok rows ->
  In r rows ->
  id r = taskId ->
  r = t /\ matches (makeWhereUpcomingTasks (now e)) t = true.
Proof.
  intros Hu Hfind Hret Hin Hid.
  unfold getNextBatch, db_task_findMany, connect in Hret.
  destruct (fault e); [discriminate |].
  cbn [bind find_where find_orderBy find_take select_where] in Hret.
  assert (Hrows : rows = firstn 1000
                           (orderBy_scheduledAt_asc
                              (filter (matches (makeWhereUpcomingTasks (now e))) s)))
    by congruence.
  rewrite Hrows in Hin. apply firstn_incl in Hin.
  apply (Permutation_in _ (Permutation_sym
           (orderBy_scheduledAt_asc_permutation _))) in Hin.
  apply filter_In in Hin as [Hin Hmatch].
  assert (Hr : findUnique (by_id taskId) s = Some r).
  { apply unique_found; [assumption .. |]. simpl. rewrite Hid.
    apply String.eqb_refl. }
  assert (r = t) by congruence. subst r. split; [reflexivity | exact Hmatch].
Qed.

Lemma retry_keeps_unique_keys (e : Env) (taskId : string) (given : option string)
  (mins : OptionalNumber) (s s' : Store) (t' : Task) :
  unique_keys s ->
  retry e taskId given mins s = Ok (t', s') ->
  unique_keys s'.
Proof.
  intros Hu Hret.
  pose proof (unique_keys_after 0 e (call_retry taskId given mins) s Hu) as Hafter.
  unfold after, perform, store_of in Hafter. now rewrite Hret in Hafter.
Qed.

Lemma succeed_keeps_unique_keys (e : Env) (taskId : string) (s s' : Store)
  (t' : Task) :
  unique_keys s ->
  succeed e taskId s = Ok (t', s') ->
  unique_keys s'.
Proof.
  intros Hu Hret.
  pose proof (unique_keys_after 0 e (call_succeed taskId) s Hu) as Hafter.
  unfold after, perform, store_of in Hafter. now rewrite Hret in Hafter.
Qed.

(** X9: a task that has succeeded is never claimed again.  After a
    [succeed] that returns, whatever calls follow, a batch holds a row with
    the id of the task only if the task was deleted on the way (and the id
    given to a new task); and [getSucceeded] lists the task right after the
    call. *)
Theorem succeeded_task_is_never_claimed (d : Z) (e : Env) (taskId : string)
  (s s' : Store) (t' : Task) :
  unique_keys s ->
  succeed e taskId s = Ok (t', s') ->
  (forall calls e' rows r,
     getNextBatch e' (run d calls s') = Ok rows ->
     In r rows ->
     id r = taskId ->
     exists n, findUnique (by_id taskId) (run d (firstn n calls) s') = None)
  /\ (forall e', fault e' = None ->
        exists succeeded, getSucceeded e' s' = Ok succeeded /\ In t' succeeded).
Proof.
  intros Hu Hret.
  pose proof (succeed_keeps_unique_keys e taskId s s' t' Hu Hret) as Hu'.
  apply succeed_inv in Hret as (t & Hfind & Hfind' & _ & _ & _ & Hdone).
  split.
  - intros calls e' rows r Hbatch Hin Hid.
    destruct (run_found (fun t1 t2 => succeededAt t1 <> None -> succeededAt t2 <> None)
                d taskId) with (calls := calls) (s := s') (t := t')
      as [(t'' & Hfind'' & Hkept) | Hgone]; auto.
    + intros e0 c s0 t0 t0' Hu0 Hfind0 Hfind0'.
      now apply (after_found d e0 c taskId s0 t0 t0' Hu0 Hfind0 Hfind0').
    + exfalso.
      destruct (batch_row_of_id e' taskId (run d calls s') t'' r rows
                  (unique_keys_run d calls s' Hu') Hfind'' Hbatch Hin Hid)
        as [_ Hmatch].
      apply matches_upcoming in Hmatch as (Hnull & _).
      apply Hkept; [rewrite Hdone; discriminate | exact Hnull].
  - intros e' Hfault'. eexists. split.
    + unfold getSucceeded, db_task_findMany, connect. rewrite Hfault'. reflexivity.
    + cbn [find_where find_orderBy find_take select_where].
      apply filter_In. split; [now apply findUnique_matches in Hfind' |].
      unfold matches, whereSucceeded. simpl. now rewrite Hdone.
Qed.

Lemma succeeded_task_is_never_claimed_witness :
  exists t' s',
    succeed (at_time 200) "task-1" [fresh_task] = Ok (t', s')
    /\ getNextBatch (at_time 300) s' = Ok []
    /\ exists succeeded, getSucceeded (at_time 300) s' = Ok succeeded
                         /\ In t' succeeded.
Proof.
  destruct (succeed (at_time 200) "task-1" [fresh_task]) as [[t' s'] |] eqn:Hret;
    [| vm_compute in Hret; discriminate].
  destruct (succeeded_task_is_never_claimed 3 (at_time 200) "task-1"
              [fresh_task] s' t' (unique_keys_singleton fresh_task) Hret)
    as [_ Hlisted].
  exists t', s'. split; [reflexivity |].
  split.
  - vm_compute in Hret. injection Hret as _ <-. reflexivity.
  - apply Hlisted. reflexivity.
Defined.

(** X10: the failed attempt that uses up the last allowed one takes the
    task out of the queue: after a [retry] that raises [attempts] to
    [maxAttempts], no batch, at whatever later time, holds the task, and
    [getFailed] lists it. *)
Theorem last_failed_attempt_exhausts_the_task (e : Env) (taskId : string)
  (given : option string) (mins : OptionalNumber) (s s' : Store) (t t' : Task) :
  unique_keys s ->
  findUnique (by_id taskId) s = Some t ->
  attempts t + 1 = maxAttempts t ->
  retry e taskId given mins s = Ok (t', s') ->
  (forall e' rows r, getNextBatch e' s' = Ok rows -> In r rows -> id r <> taskId)
  /\ (forall e', fault e' = None ->
        exists failed, getFailed e' s' = Ok failed /\ In t' failed).
Proof.
  intros Hu Hfind Hlast Hret.
  pose proof (retry_keeps_unique_keys e taskId given mins s s' t' Hu Hret) as Hu'.
  assert (Hfields : findUnique (by_id taskId) s' = Some t'
                    /\ attempts t' = maxAttempts t').
  { pose proof Hret as Hinv.
    apply retry_inv in Hinv as (t0 & Hfind0 & Hfind' & _ & _ & Hattempts & _).
    split; [exact Hfind' |].
    unfold retry in Hret.
    apply db_task_update_inv in Hret as (t1 & Hfind1 & -> & _).
    rewrite Hfind in Hfind0. injection Hfind0 as <-.
    rewrite Hfind in Hfind1. injection Hfind1 as <-.
    rewrite Hattempts. read_fields. lia. }
  destruct Hfields as [Hfind' Hfull].
  split.
  - intros e' rows r Hbatch Hin Hid.
    destruct (batch_row_of_id e' taskId s' t' r rows Hu' Hfind' Hbatch Hin Hid)
      as [_ Hmatch].
    apply matches_upcoming in Hmatch as (_ & _ & Hleft). lia.
  - intros e' Hfault'. eexists. split.
    + unfold getFailed, db_task_findMany, connect. rewrite Hfault'. reflexivity.
    + cbn [find_where find_orderBy find_take select_where].
      apply filter_In. split; [now apply findUnique_matches in Hfind' |].
      unfold matches, whereMaxAttemptsReached. simpl. now apply Z.eqb_eq.
Qed.

Lemma last_failed_attempt_exhausts_the_task_witness :
  exists t' s',
    retry (at_time 500) "task-1" (Some "timeout") Undefined exhausted_but_one
    = Ok (t', s')
    /\ getNextBatch (at_time 600) s' = Ok []
    /\ exists failed, getFailed (at_time 600) s' = Ok failed /\ In t' failed.
Proof.
  destruct (findUnique (by_id "task-1") exhausted_but_one) as [t |] eqn:Hfind;
    [| vm_compute in Hfind; discriminate].
  destruct (retry (at_time 500) "task-1" (Some "timeout") Undefined
              exhausted_but_one) as [[t' s'] |] eqn:Hret;
    [| vm_compute in Hret; discriminate].
  destruct (last_failed_attempt_exhausts_the_task (at_time 500) "task-1"
              (Some "timeout") Undefined exhausted_but_one s' t t')
    as [_ Hlisted].
  - apply unique_keys_run, unique_keys_empty.
  - exact Hfind.
  - vm_compute in Hfind. injection Hfind as <-. reflexivity.
  - exact Hret.
  - exists t', s'. split; [reflexivity |]. split.
    + vm_compute in Hret. injection Hret as _ <-. reflexivity.
    + apply Hlisted. reflexivity.
Defined.

(** X11: a retry with an interval defers the task.  A [retry] with a
    non-zero whole number [mins] of minutes returns when the database call
    does not fail, [attempts] is below the largest [Int], and the time of
    the call and that time plus the interval are dates of the years 1 to
    9999; the task then passes the filter of a batch at a time T exactly
    when it is unsucceeded, has attempts left after this one, and T is
    strictly later than the time of the retry plus the interval; no batch
    taken up to that time holds it. *)
Theorem retry_defers_the_task (e : Env) (taskId : string) (given : option string)
  (mins : Z) (s : Store) (t : Task) :
  unique_keys s ->
  findUnique (by_id taskId) s = Some t ->
  fault e = None ->
  attempts t < INT_MAX ->
  mins <> 0 ->
  DateTime_ok (now e) ->
  DateTime_ok (now e + 60000 * mins) ->
  exists t' s',
    retry e taskId given (Num mins) s = Ok (t', s')
    /\ findUnique (by_id taskId) s' = Some t'
    /\ (forall T, matches (makeWhereUpcomingTasks T) t' = true
                  <-> succeededAt t = None
                      /\ now e + 60000 * mins < T
                      /\ attempts t + 1 < maxAttempts t)
    /\ (forall e' rows r,
          now e' <= now e + 60000 * mins ->
          getNextBatch e' s' = Ok rows -> In r rows -> id r <> taskId).
Proof.
  intros Hu Hfind Hfault Hmax Hmins Hclock Hdate.
  pose proof (retry_ok e taskId given (Num mins) s t Hfind Hfault Hmax Hclock
                (fun _ => Hdate)) as Hret.
  assert (Hnz : (mins =? 0) = false) by now apply Z.eqb_neq.
  cbv beta iota zeta in Hret. rewrite Hnz in Hret.
  eexists. eexists. split; [exact Hret |].
  assert (Hfilter :
            forall T, matches (makeWhereUpcomingTasks T)
                        (apply_update
                           {| data_attempts := Some (increment 1);
                              data_lastError := given;
                              data_lastFailedAttemptAt := Some (ValidDate (now e));
                              data_scheduledAt :=
                                Some (ValidDate (now e + 60000 * mins));
                              data_succeededAt := None |} t) = true
                      <-> succeededAt t = None
                          /\ now e + 60000 * mins < T
                          /\ attempts t + 1 < maxAttempts t).
  { intros T. rewrite matches_upcoming. read_fields. cbn [set_date]. tauto. }
  pose proof Hret as Hinv.
  apply retry_inv in Hinv as (t0 & _ & Hfind' & _).
  split; [exact Hfind' |].
  split; [exact Hfilter |].
  intros e' rows r Hearly Hbatch Hin Hid.
  pose proof (retry_keeps_unique_keys e taskId given (Num mins) s _ _ Hu Hret) as Hu'.
  destruct (batch_row_of_id e' taskId _ _ r rows Hu' Hfind' Hbatch Hin Hid)
    as [_ Hmatch].
  apply Hfilter in Hmatch as (_ & Hlate & _). lia.
Qed.

Lemma retry_defers_the_task_witness :
  exists t' s',
    retry (at_time 500) "task-1" (Some "timeout") (Num 5) [fresh_task] = Ok (t', s')
    /\ findUnique (by_id "task-1") s' = Some t'
    /\ matches (makeWhereUpcomingTasks 300500) t' = false
    /\ matches (makeWhereUpcomingTasks 300501) t' = true.
Proof.
  destruct (retry_defers_the_task (at_time 500) "task-1" (Some "timeout") 5
              [fresh_task] fresh_task)
    as (t' & s' & Hret & Hfind & Hfilter & _).
  - apply unique_keys_singleton.
  - reflexivity.
  - reflexivity.
  - reflexivity.
  - discriminate.
  - split; vm_compute; discriminate.
  - split; vm_compute; discriminate.
  - exists t', s'. split; [exact Hret |]. split; [exact Hfind |]. split.
    + destruct (matches (makeWhereUpcomingTasks 300500) t') eqn:Hm; [| reflexivity].
      apply Hfilter in Hm as (_ & Hlate & _). vm_compute in Hlate. discriminate.
    + apply Hfilter. repeat split.
Defined.

(** ** What retry and succeed leave alone *)

Lemma findUnique_replace_apart (w v : TaskWhereUniqueInput) (t' : Task) (s : Store) :
  (forall x, unique_match w x = true -> unique_match v x = false) ->
  unique_match v t' = false ->
  findUnique v (replace_row w t' s) = findUnique v s.
Proof.
  unfold findUnique. intros Hsep Ht'.
  induction s as [| x s IH]; simpl; [reflexivity |].
  destruct (unique_match w x) eqn:Hx; simpl.
  - rewrite Ht', (Hsep x Hx). reflexivity.
  - now rewrite IH.
Qed.

Lemma replace_row_length (w : TaskWhereUniqueInput) (t' : Task) (s : Store) :
  List.length (replace_row w t' s) = List.length s.
Proof.
  induction s as [| x s IH]; simpl; [reflexivity |].
  destruct (unique_match w x); simpl; [reflexivity | now rewrite IH].
Qed.

Lemma replace_row_In_apart (w : TaskWhereUniqueInput) (t' x : Task) (s : Store) :
  unique_match w t' = true ->
  unique_match w x = false ->
  In x (replace_row w t' s) <-> In x s.
Proof.
  intros Ht' Hx.
  induction s as [| y s IH]; simpl; [tauto |].
  destruct (unique_match w y) eqn:Hy; simpl.
  - split; intros [Heq | Hin]; try (now right); subst; congruence.
  - rewrite IH. tauto.
Qed.

(** X12: [retry] and [succeed] change one row only: the table keeps its
    number of rows, every row with another id is in the table after the
    call exactly if it was before, and every other id finds the task it
    found before. *)
Theorem attempt_touches_only_its_task (d : Z) (e : Env) (c : Call)
  (taskId : string) (s s' : Store) :
  attempt_on taskId c = true ->
  perform d e c s = Ok s' ->
  List.length s' = List.length s
  /\ (forall x, id x <> taskId -> In x s' <-> In x s)
  /\ (forall other, other <> taskId ->
        findUnique (by_id other) s' = findUnique (by_id other) s).
Proof.
  intros Hon Hperform.
  assert (Hshape : exists t', s' = replace_row (by_id taskId) t' s /\ id t' = taskId).
  { destruct c as [ty p o | i given mins | i | i | r ty |]; try discriminate;
      simpl in Hon; apply String.eqb_eq in Hon; subst i;
      simpl in Hperform; unfold store_of in Hperform.
    - destruct (retry e taskId given mins s) as [[t1 s1] |] eqn:Hret;
        [| discriminate].
      cbn [bind snd] in Hperform. injection Hperform as <-.
      apply retry_inv in Hret as (t & Hfind & _ & -> & Hid & _).
      exists t1. split; [reflexivity |].
      apply findUnique_matches in Hfind as [Hmatch _]. simpl in Hmatch.
      apply String.eqb_eq in Hmatch. congruence.
    - destruct (succeed e taskId s) as [[t1 s1] |] eqn:Hret; [| discriminate].
      cbn [bind snd] in Hperform. injection Hperform as <-.
      apply succeed_inv in Hret as (t & Hfind & _ & -> & Hid & _).
      exists t1. split; [reflexivity |].
      apply findUnique_matches in Hfind as [Hmatch _]. simpl in Hmatch.
      apply String.eqb_eq in Hmatch. congruence. }
  destruct Hshape as (t' & -> & Hid).
  split; [apply replace_row_length |]. split.
  - intros x Hx. apply replace_row_In_apart; simpl.
    + rewrite Hid. apply String.eqb_refl.
    + now apply String.eqb_neq.
  - intros other Hne. apply findUnique_replace_apart.
    + intros x. now apply other_id.
    + simpl. rewrite Hid. apply String.eqb_neq. congruence.
Qed.

Lemma attempt_touches_only_its_task_witness :
  exists s',
    perform 3 (at_time 500) (call_succeed "task-1")
      [fresh_task; scan_task "task-2" "{}"] = Ok s'
    /\ List.length s' = 2%nat
    /\ findUnique (by_id "task-2") s' = Some (scan_task "task-2" "{}").
Proof.
  destruct (perform 3 (at_time 500) (call_succeed "task-1")
              [fresh_task; scan_task "task-2" "{}"]) as [s' |] eqn:Hperform;
    [| vm_compute in Hperform; discriminate].
  destruct (attempt_touches_only_its_task 3 (at_time 500) (call_succeed "task-1")
              "task-1" [fresh_task; scan_task "task-2" "{}"] s')
    as (Hlen & _ & Hother).
  - reflexivity.
  - exact Hperform.
  - exists s'. split; [reflexivity |]. split; [exact Hlen |].
    rewrite (Hother "task-2"); [reflexivity | discriminate].
Defined.

(** X13: a task enters the queue at its [scheduledAt].  The task that
    [create] inserts passes the filter of a batch at a time T exactly when
    T is strictly later than its [scheduledAt] and at least one attempt is
    allowed; its [scheduledAt] and [maxAttempts] are the ones given, when
    given; and no batch taken up to its [scheduledAt] holds it. *)
Theorem create_schedules_the_task (d : Z) (e : Env) (ty p : string)
  (options : CreateOptions) (s s' : Store) (taskId : string) :
  unique_keys s ->
  create d e ty p options s = Ok (taskId, s') ->
  exists t,
    findUnique (by_id taskId) s' = Some t
    /\ (forall due, opt_scheduledAt options = Some due -> scheduledAt t = due)
    /\ (forall allowed, opt_maxAttempts options = Some allowed ->
          maxAttempts t = allowed)
    /\ (forall T, matches (makeWhereUpcomingTasks T) t = true
                  <-> scheduledAt t < T /\ 0 < maxAttempts t)
    /\ (forall e' rows r,
          now e' <= scheduledAt t ->
          getNextBatch e' s' = Ok rows -> In r rows -> id r <> taskId).
Proof.
  intros Hu Hret.
  pose proof (unique_keys_after d e (call_create ty p options) s Hu) as Hu'.
  unfold after, perform, store_of in Hu'. rewrite Hret in Hu'. cbn [bind snd] in Hu'.
  apply create_inv in Hret as (_ & _ & Hfree & Hid & Hs').
  set (t := new_row d e (create_input ty p options)) in *.
  subst taskId s'.
  assert (Hfind : findUnique (by_id (id t)) (s ++ [t]) = Some t).
  { apply unique_found; [exact Hu' | apply in_or_app; right; now left |].
    simpl. apply String.eqb_refl. }
  assert (Hfilter : forall T, matches (makeWhereUpcomingTasks T) t = true
                              <-> scheduledAt t < T /\ 0 < maxAttempts t).
  { intros T. rewrite matches_upcoming.
    change (succeededAt t) with (@None Z). change (attempts t) with 0. tauto. }
  exists t. split; [exact Hfind |].
  split; [intros due Hdue; subst t; simpl; now rewrite Hdue |].
  split; [intros allowed Hallowed; subst t; simpl; now rewrite Hallowed |].
  split; [exact Hfilter |].
  intros e' rows r Hearly Hbatch Hin Hr.
  destruct (batch_row_of_id e' (id t) (s ++ [t]) t r rows Hu' Hfind Hbatch Hin Hr)
    as [_ Hmatch].
  apply Hfilter in Hmatch as [Hlate _]. lia.
Qed.

Lemma create_schedules_the_task_witness :
  exists s' t,
    create 3 (at_time 100) "sendEmail" "{}"
      {| opt_scheduledAt := Some 500; opt_maxAttempts := Some 2;
         opt_referenceUid := None |} [] = Ok ("task-1", s')
    /\ findUnique (by_id "task-1") s' = Some t
    /\ scheduledAt t = 500
    /\ getNextBatch (at_time 500) s' = Ok []
    /\ matches (makeWhereUpcomingTasks 501) t = true.
Proof.
  destruct (create 3 (at_time 100) "sendEmail" "{}"
              {| opt_scheduledAt := Some 500; opt_maxAttempts := Some 2;
                 opt_referenceUid := None |} []) as [[i s'] |] eqn:Hret;
    [| vm_compute in Hret; discriminate].
  destruct (create_schedules_the_task 3 (at_time 100) "sendEmail" "{}"
              {| opt_scheduledAt := Some 500; opt_maxAttempts := Some 2;
                 opt_referenceUid := None |} [] s' i unique_keys_empty Hret)
    as (t & Hfind & Hdue & Hallowed & Hfilter & _).
  assert (Hi : i = "task-1") by (vm_compute in Hret; now injection Hret as <- _).
  subst i.
  exists s', t. split; [reflexivity |]. split; [exact Hfind |].
  split; [now apply Hdue |].
  split.
  - vm_compute in Hret. injection Hret as <-. reflexivity.
  - apply Hfilter. rewrite (Hdue 500 eq_refl), (Hallowed 2 eq_refl).
    split; reflexivity.
Defined.

(** ** More on the supersession check *)

Section SupersessionOrder.

Variable jsonb_workflowStepId : string -> option (option Z).
Variable scanWorkflowBody_createdAt : string -> option (option string).
Variable Date_parse : string -> option Z.

(** X14: when the step id is in the range of [Int] and no payload of a
    pending scan task makes a cast of the query raise, the check answers
    for every candidate, and the answers follow the order of time: the answer is true exactly when a pending scan task of
    the step records, in its payload, a creation time strictly later than
    the candidate's; a candidate superseded at some time is superseded at
    every earlier time; and a candidate whose [createdAt] is no date is
    never superseded. *)
Theorem supersession_follows_time (e : Env) (n : Z) (s : Store) :
  fault e = None ->
  - INT_MAX - 1 <= n <= INT_MAX ->
  (forall t, In t s -> pending_scan t -> jsonb_workflowStepId (payload t) <> None) ->
  let check := hasNewerScanTaskForStepId jsonb_workflowStepId
                 scanWorkflowBody_createdAt Date_parse e n in
  (forall createdAt, exists answer,
     check createdAt s = Ok answer
     /\ (answer = true <->
         exists t, In t s /\ type t = "scanWorkflowBody" /\ succeededAt t = None
                   /\ jsonb_workflowStepId (payload t) = Some (Some n)
                   /\ records_later scanWorkflowBody_createdAt Date_parse
                        createdAt (payload t)))
  /\ (forall later earlier y y',
        Date_parse later = Some y -> Date_parse earlier = Some y' -> y' <= y ->
        check later s = Ok true -> check earlier s = Ok true)
  /\ (forall createdAt, Date_parse createdAt = None -> check createdAt s = Ok false).
Proof.
  intros Hfault Hint Hcasts check.
  assert (Hanswer : forall createdAt, exists answer,
             check createdAt s = Ok answer
             /\ (answer = true <->
                 exists t, In t s /\ pending_scan t
                           /\ jsonb_workflowStepId (payload t) = Some (Some n)
                           /\ records_later scanWorkflowBody_createdAt Date_parse
                                createdAt (payload t))).
  { intros createdAt. now apply hasNewerScanTaskForStepId_answer. }
  split; [| split].
  - intros createdAt. destruct (Hanswer createdAt) as (answer & Hret & Hiff).
    exists answer. split; [exact Hret |]. rewrite Hiff.
    unfold pending_scan. split; intros (t & H); exists t; tauto.
  - intros later earlier y y' Hy Hy' Hle Hlater.
    destruct (Hanswer later) as (a1 & Hret1 & Hiff1).
    destruct (Hanswer earlier) as (a2 & Hret2 & Hiff2).
    rewrite Hret2. f_equal. apply Hiff2.
    assert (Ha1 : a1 = true) by congruence.
    apply Hiff1 in Ha1 as (t & Hin & Hpending & Hstep & Hrec).
    exists t. repeat split; try assumption; try apply Hpending.
    destruct Hrec as (recorded & x & y0 & Hparsed & Hne & Hx & Hy0 & Hlt).
    exists recorded, x, y'. repeat split; try assumption.
    rewrite Hy in Hy0. injection Hy0 as <-. lia.
  - intros createdAt Hinvalid.
    destruct (Hanswer createdAt) as ([|] & Hret & Hiff); [| exact Hret].
    exfalso.
    destruct (proj1 Hiff eq_refl)
      as (t & _ & _ & _ & recorded & x & y & _ & _ & _ & Hy & _).
    congruence.
Qed.

End SupersessionOrder.

Lemma supersession_follows_time_witness :
  hasNewerScanTaskForStepId sample_jsonb_workflowStepId sample_createdAt
    sample_Date_parse (at_time 1000) 7 "2024-05-01"
    [scan_task "task-1" payload_of_May_2; scan_task "task-2" payload_without_userId]
  = Ok true
  /\ hasNewerScanTaskForStepId sample_jsonb_workflowStepId sample_createdAt
       sample_Date_parse (at_time 1000) 7 "yesterday"
       [scan_task "task-1" payload_of_May_2; scan_task "task-2" payload_without_userId]
     = Ok false.
Proof.
  destruct (supersession_follows_time sample_jsonb_workflowStepId sample_createdAt
              sample_Date_parse (at_time 1000) 7
              [scan_task "task-1" payload_of_May_2;
               scan_task "task-2" payload_without_userId])
    as (_ & _ & Hinvalid).
  - reflexivity.
  - split; vm_compute; discriminate.
  - intros t [<- | [<- | []]] _; vm_compute; discriminate.
  - split; [reflexivity |]. now apply Hinvalid.
Defined.

(** ** Attempts of claimed tasks *)

Lemma attempt_keeps_maxAttempts (d : Z) (taskId : string) (e : Env) (c : Call)
  (s s' : Store) (t : Task) :
  attempt_on taskId c = true ->
  findUnique (by_id taskId) s = Some t ->
  perform d e c s = Ok s' ->
  exists t', findUnique (by_id taskId) s' = Some t'
             /\ attempts t' = attempts t + 1
             /\ maxAttempts t' = maxAttempts t.
Proof.
  intros Hon Hfind Hperform.
  destruct (attempt_step d taskId e c s s' t Hon Hfind Hperform)
    as (t' & Hfind' & Hattempts).
  exists t'. split; [exact Hfind' |]. split; [exact Hattempts |].
  destruct c as [ty p o | i given mins | i | i | r ty |]; try discriminate;
    simpl in Hon; apply String.eqb_eq in Hon; subst i;
    simpl in Hperform; unfold store_of in Hperform.
  - destruct (retry e taskId given mins s) as [[t1 s1] |] eqn:Hret;
      [| discriminate].
    cbn [bind snd] in Hperform. injection Hperform as <-.
    pose proof Hret as Hinv. apply retry_inv in Hinv as (_ & _ & Hfind1 & _).
    unfold retry in Hret.
    apply db_task_update_inv in Hret as (t0 & Hfind0 & -> & _).
    assert (t0 = t) by congruence. subst t0.
    assert (Heq : Some t' = Some (apply_update
                                    {| data_attempts := Some (increment 1);
                                       data_lastError := given;
                                       data_lastFailedAttemptAt :=
                                         Some (ValidDate (now e));
                                       data_scheduledAt := _;
                                       data_succeededAt := None |} t))
      by (rewrite <- Hfind'; exact Hfind1).
    injection Heq as ->. reflexivity.
  - destruct (succeed e taskId s) as [[t1 s1] |] eqn:Hret; [| discriminate].
    cbn [bind snd] in Hperform. injection Hperform as <-.
    pose proof Hret as Hinv. apply succeed_inv in Hinv as (_ & _ & Hfind1 & _).
    unfold succeed in Hret.
    apply db_task_update_inv in Hret as (t0 & Hfind0 & -> & _).
    assert (t0 = t) by congruence. subst t0.
    assert (Heq : Some t' = Some (apply_update
                                    {| data_attempts := Some (increment 1);
                                       data_lastError := None;
                                       data_lastFailedAttemptAt := None;
                                       data_scheduledAt := None;
                                       data_succeededAt :=
                                         Some (ValidDate (now e)) |} t))
      by (rewrite <- Hfind'; exact Hfind1).
    injection Heq as ->. reflexivity.
Qed.

(** X15: an attempt on a claimed task stays within the limit.  When a task
    of a batch is retried or succeeded, on the table the batch was taken
    from, its [attempts] is one more than in the batch and still at most
    its [maxAttempts], which is unchanged. *)
Theorem claimed_attempt_stays_within_limit (d : Z) (e0 e : Env) (c : Call)
  (s s' : Store) (rows : list Task) (r : Task) :
  unique_keys s ->
  getNextBatch e0 s = Ok rows ->
  In r rows ->
  attempt_on (id r) c = true ->
  perform d e c s = Ok s' ->
  exists t', findUnique (by_id (id r)) s' = Some t'
             /\ attempts t' = attempts r + 1
             /\ maxAttempts t' = maxAttempts r
             /\ attempts t' <= maxAttempts t'.
Proof.
  intros Hu Hbatch Hin Hon Hperform.
  destruct (findUnique (by_id (id r)) s) as [t |] eqn:Hfind.
  - destruct (batch_row_of_id e0 (id r) s t r rows Hu Hfind Hbatch Hin eq_refl)
      as [-> Hmatch].
    apply matches_upcoming in Hmatch as (_ & _ & Hleft).
    destruct (attempt_keeps_maxAttempts d (id t) e c s s' t Hon Hfind Hperform)
      as (t' & Hfind' & Hattempts & Hlimit).
    exists t'. repeat split; try assumption. lia.
  - exfalso.
    destruct (getNextBatch_rows e0 s) as (rows0 & Hret0 & _ & _ & Hsound & _).
    { unfold getNextBatch, db_task_findMany, connect in Hbatch.
      destruct (fault e0); [discriminate | reflexivity]. }
    assert (rows0 = rows) by congruence. subst rows0.
    apply Hsound in Hin as (Hs & _).
    unfold findUnique in Hfind.
    pose proof (find_none _ _ Hfind r Hs) as Hno.
    simpl in Hno. rewrite String.eqb_refl in Hno. discriminate.
Qed.

Lemma claimed_attempt_stays_within_limit_witness :
  exists rows s' t',
    getNextBatch (at_time 200) exhausted_but_one = Ok rows
    /\ perform 3 (at_time 300) (call_succeed "task-1") exhausted_but_one = Ok s'
    /\ findUnique (by_id "task-1") s' = Some t'
    /\ attempts t' = 1
    /\ attempts t' <= maxAttempts t'.
Proof.
  destruct (getNextBatch (at_time 200) exhausted_but_one) as [rows |] eqn:Hbatch;
    [| vm_compute in Hbatch; discriminate].
  destruct (perform 3 (at_time 300) (call_succeed "task-1") exhausted_but_one)
    as [s' |] eqn:Hperform; [| vm_compute in Hperform; discriminate].
  destruct rows as [| r rows]; [vm_compute in Hbatch; discriminate |].
  assert (Hr : id r = "task-1" /\ attempts r = 0).
  { vm_compute in Hbatch. injection Hbatch as <- _. split; reflexivity. }
  destruct Hr as [Hid Hzero].
  destruct (claimed_attempt_stays_within_limit 3 (at_time 200) (at_time 300)
              (call_succeed "task-1") exhausted_but_one s' (r :: rows) r)
    as (t' & Hfind & Hattempts & _ & Hlimit).
  - apply unique_keys_run, unique_keys_empty.
  - exact Hbatch.
  - now left.
  - simpl. rewrite Hid. reflexivity.
  - exact Hperform.
  - exists (r :: rows), s', t'.
    split; [reflexivity |]. split; [reflexivity |].
    rewrite Hid in Hfind. split; [exact Hfind |].
    split; [rewrite Hattempts, Hzero; reflexivity | exact Hlimit].
Defined.

(** ** Values outside the ranges of the columns *)

(** A retry that would schedule the task in the year 10000 is refused, one
    minute less is accepted; an infinite interval gives no date at all and
    NaN is an interval omitted; a [maxAttempts] beyond the largest [Int]
    and a step id beyond it are refused, the latter on any table. *)
Lemma values_outside_the_column_ranges :
  (exists err,
     retry (at_time 0) "task-1" None (Num 4223371680) [fresh_task] = Throw err)
  /\ (exists t' s',
        retry (at_time 0) "task-1" None (Num 4223371679) [fresh_task] = Ok (t', s')
        /\ scheduledAt t' = 253402300740000)
  /\ (exists err,
        retry (at_time 500) "task-1" None Infinity [fresh_task] = Throw err)
  /\ retry (at_time 500) "task-1" None NaN [fresh_task]
     = retry (at_time 500) "task-1" None Undefined [fresh_task]
  /\ create 3 (at_time 100) "sendEmail" "{}"
       {| opt_scheduledAt := None; opt_maxAttempts := Some 2147483648;
          opt_referenceUid := None |} [] = Throw value_out_of_range
  /\ hasNewerScanTaskForStepId sample_jsonb_workflowStepId sample_createdAt
       sample_Date_parse (at_time 1000) 2147483648 "2024-05-01" []
     = Throw raw_query_failed.
Proof.
  split; [eexists; reflexivity |].
  split; [eexists; eexists; split; [vm_compute; reflexivity | reflexivity] |].
  split; [eexists; reflexivity |].
  repeat split.
Qed.
